(** * Just Carpets multi-country dashboard (Streamlit/mcc_dashboard.py)

    A shallow embedding of the dashboard script: the Python values it
    manipulates, the Streamlit calls it makes (as a log of user-interface
    events and a script-control outcome), the Google Ads client it talks to
    (as an oracle record), and the script's own functions, followed by the
    properties of the specification that were checked against them. *)

From Stdlib Require Import ZArith QArith Qabs Lqa Lia String Ascii List DecimalString.
From Stdlib Require Import Floats.SpecFloat.
From stdpp Require Import gmap strings list.

(** ** Python values and exceptions *)

(** The values found in a row dictionary: [None], an [int], a [str]. *)
Inductive pyval : Type :=
  | VNone
  | VInt (z : Z)
  | VStr (s : string).

(** A table cell is a row value passed through unchanged, or the [float]
    produced by the division on line 171. *)
Inductive cell : Type :=
  | CPy (v : pyval)
  | CFloat (f : spec_float).

(** Exception classes the script can meet.  All of them derive from
    [Exception]; only the first is matched by [except GoogleAdsException]. *)
Inductive ExnClass : Type :=
  | GoogleAdsException
  | TypeError
  | ZeroDivisionError
  | OverflowError
  | KeyError
  | OtherException.

(** An exception instance: its class and [str(e)]. *)
Record Exn : Type := mkExn { exn_class : ExnClass; exn_str : string }.

Definition is_google_ads_exception (e : Exn) : bool :=
  match exn_class e with GoogleAdsException => true | _ => false end.

(** Pure Python expressions either yield a value or raise. *)
Definition pyres (A : Type) : Type := (Exn + A)%type.

Definition pybind {A B : Type} (x : pyres A) (f : A -> pyres B) : pyres B :=
  match x with
  | inl e => inl e
  | inr a => f a
  end.

(** Truth value testing: [None], [0] and the empty string are false. *)
Definition py_truthy (v : pyval) : bool :=
  match v with
  | VNone => false
  | VInt z => negb (z =? 0)%Z
  | VStr s => negb (String.eqb s "")
  end.

(** [a or b]. *)
Definition py_or (a b : pyval) : pyval := if py_truthy a then a else b.

(** [row.get(key, default)] and [row.get(key)] on a dict. *)
Definition row_get (row : gmap string pyval) (key : string) (dflt : pyval) : pyval :=
  default dflt (row !! key).

(** [sum(items)]: starts from the int [0] and adds the items left to right;
    adding [None] or a [str] to an [int] raises [TypeError]. *)
Fixpoint py_sum_from (acc : Z) (items : list pyval) : pyres Z :=
  match items with
  | [] => inr acc
  | VInt z :: rest => py_sum_from (acc + z)%Z rest
  | VNone :: _ =>
      inl (mkExn TypeError "unsupported operand type(s) for +: 'int' and 'NoneType'")
  | VStr _ :: _ =>
      inl (mkExn TypeError "unsupported operand type(s) for +: 'int' and 'str'")
  end.

Definition py_sum (items : list pyval) : pyres Z := py_sum_from 0%Z items.

(** ** True division of two ints

    [a / b] on Python ints is the binary64 float nearest to the exact
    quotient, ties to even; it raises [ZeroDivisionError] when [b] is zero
    and [OverflowError] when the quotient is too large for a float.  Floats
    are [spec_float] values in the IEEE layout: 53-bit mantissa for normal
    numbers, exponent at least -1074. *)

(** Nearest integer to [n / d], ties to even, for [0 < d]. *)
Definition round_half_even (n d : Z) : Z :=
  let q := (n / d)%Z in
  let r := (n mod d)%Z in
  match (2 * r ?= d)%Z with
  | Lt => q
  | Gt => (q + 1)%Z
  | Eq => if Z.even q then q else (q + 1)%Z
  end.

(** [floor (log2 (a / b))] for positive [a] and [b]. *)
Definition ilog2_quot (a b : Z) : Z :=
  let e0 := (Z.log2 a - Z.log2 b)%Z in
  if (b * 2 ^ Z.max 0 e0 <=? a * 2 ^ Z.max 0 (- e0))%Z then e0 else (e0 - 1)%Z.

(** The number of fractional bits kept when [a / b] is rounded: 52 below
    the leading bit, and never more than 1074 (subnormal range). *)
Definition frac_bits (a b : Z) : Z := Z.min (52 - ilog2_quot a b) 1074.

(** [a / b], positive operands, rounded to a multiple of [2 ^ - frac_bits]. *)
Definition round_quot (a b : Z) : Z :=
  let sh := frac_bits a b in
  round_half_even (a * 2 ^ Z.max 0 sh) (b * 2 ^ Z.max 0 (- sh)).

(** Mantissa and exponent of the rounded quotient, renormalised when the
    rounding carried into bit 53. *)
Definition round_binary64 (a b : Z) : Z * Z :=
  let sh := frac_bits a b in
  let q := round_quot a b in
  if (q =? 2 ^ 53)%Z then (2 ^ 52, 1 - sh)%Z else (q, - sh)%Z.

Definition py_truediv (a b : Z) : pyres spec_float :=
  if (b =? 0)%Z then inl (mkExn ZeroDivisionError "division by zero")
  else
    let neg := xorb (a <? 0)%Z (b <? 0)%Z in
    if (a =? 0)%Z then inr (S754_zero neg)
    else
      let '(m, e) := round_binary64 (Z.abs a) (Z.abs b) in
      match m with
      | Zpos p =>
          if (971 <? e)%Z
          then inl (mkExn OverflowError "integer division result too large for a float")
          else inr (S754_finite neg p e)
      | _ => inr (S754_zero neg)
      end.

(** The rational number a finite float denotes. *)
Definition F2Q (f : spec_float) : Q :=
  match f with
  | S754_finite s m e =>
      let z := if s then Zneg m else Zpos m in
      if (0 <=? e)%Z then inject_Z (z * 2 ^ e) else z # Z.to_pos (2 ^ (- e))
  | _ => 0%Q
  end.

(** ** Format specifications *)

(** The decimal digits of a natural number. *)
Definition digits (n : N) : string := NilZero.string_of_uint (N.to_uint n).

(** Digits with a comma before every group of three counted from the right;
    [count] is the number of digits still to come, this one included. *)
Fixpoint group_from (count : nat) (text : string) : string :=
  match text with
  | EmptyString => EmptyString
  | String c rest =>
      match count with
      | S n =>
          if ((0 <? n) && (n mod 3 =? 0))%nat
          then String c (String "," (group_from n rest))
          else String c (group_from n rest)
      | O => String c rest
      end
  end.

Definition group_thousands (text : string) : string :=
  group_from (String.length text) text.

(** [f"{z:,}"] for an int. *)
Definition format_int (z : Z) : string :=
  (if (z <? 0)%Z then "-" else "") +:+ group_thousands (digits (Z.abs_N z)).

(** [f"{f:,.2f}"] for a float: the exact value rounded to hundredths, ties
    to even. *)
Definition format_2f (f : spec_float) : string :=
  match f with
  | S754_nan => "nan"
  | S754_infinity s => if s then "-inf" else "inf"
  | S754_zero s => if s then "-0.00" else "0.00"
  | S754_finite s m e =>
      let hundredths :=
        Z.to_N (round_half_even (Zpos m * 2 ^ Z.max 0 e * 100) (2 ^ Z.max 0 (- e))) in
      let cents := digits (hundredths mod 100) in
      (if s then "-" else "")
      +:+ group_thousands (digits (hundredths / 100))
      +:+ "." +:+ (if (String.length cents <? 2)%nat then "0" +:+ cents else cents)
  end.

(** ** Streamlit: user-interface events and script control

    Messages are kept with their level and text (the [icon] argument of
    [st.success] is left out), a metric card with its label and the text it
    shows, the table with the list of dicts it is given.  The spinner of
    line 149 shows nothing that lasts and is left out. *)

Inductive Level : Type := Success | Warning | Error | Info.

Inductive UiEvent : Type :=
  | Msg (lvl : Level) (text : string)
  | Metric (label value : string)
  | Dataframe (table : list (gmap string cell)).

(** The authenticated client is an object; two handles are the same object
    when their identities agree. *)
Record GoogleAdsClient : Type := mkClient { client_id_of : nat }.

(** Calls that reach the Google Ads library, in the order they are made. *)
Inductive ApiCall : Type :=
  | CallLoadFromDict
  | CallGetService (name : string)
  | CallListAccessibleCustomers
  | CallSearch (customer_id query : string).

(** The state a script run threads: what was shown, what was called, the
    [st.cache_resource] slot of [get_google_ads_client], and how many
    clients were built so far in the process. *)
Record state : Type := mkState {
  ui : list UiEvent;
  calls : list ApiCall;
  cache : option GoogleAdsClient;
  constructed : nat
}.

Definition initial_state : state :=
  {| ui := []; calls := []; cache := None; constructed := 0 |}.

(** A statement returns, stops the script ([st.stop()] raises a script
    control exception that no [except Exception] catches), or raises. *)
Inductive outcome (A : Type) : Type :=
  | Ok (a : A)
  | Stopped
  | Raised (e : Exn).
Arguments Ok {A} a.
Arguments Stopped {A}.
Arguments Raised {A} e.

Definition M (A : Type) : Type := state -> outcome A * state.

Definition ret {A : Type} (a : A) : M A := fun s => (Ok a, s).

Definition bind {A B : Type} (m : M A) (f : A -> M B) : M B :=
  fun s =>
    match m s with
    | (Ok a, s') => f a s'
    | (Stopped, s') => (Stopped, s')
    | (Raised e, s') => (Raised e, s')
    end.

Declare Scope script_scope.
Delimit Scope script_scope with script.
Notation "x <- m ;; k" := (bind m (fun x => k))
  (at level 100, m at next level, right associativity) : script_scope.
Notation "m ;;; k" := (bind m (fun _ => k))
  (at level 100, right associativity) : script_scope.
Local Open Scope script_scope.

Definition raise {A : Type} (e : Exn) : M A := fun s => (Raised e, s).

Definition lift {A : Type} (x : pyres A) : M A :=
  match x with
  | inl e => raise e
  | inr a => ret a
  end.

(** [try: body / except Exception as e: handler e]. *)
Definition try_except {A : Type} (body : M A) (handler : Exn -> M A) : M A :=
  fun s =>
    match body s with
    | (Raised e, s') => handler e s'
    | other => other
    end.

Definition show (ev : UiEvent) : M unit :=
  fun s => (Ok tt, {| ui := ui s ++ [ev]; calls := calls s;
                      cache := cache s; constructed := constructed s |}).

Definition st_success (text : string) : M unit := show (Msg Success text).
Definition st_warning (text : string) : M unit := show (Msg Warning text).
Definition st_error (text : string) : M unit := show (Msg Error text).
Definition st_info (text : string) : M unit := show (Msg Info text).
Definition st_metric (label value : string) : M unit :=
  show (Metric label value).

Definition st_stop {A : Type} : M A := fun s => (Stopped, s).

Definition record_call (c : ApiCall) : M unit :=
  fun s => (Ok tt, {| ui := ui s; calls := calls s ++ [c];
                      cache := cache s; constructed := constructed s |}).

(** Modelled from the spec: the [st.cache_resource] decorator of line 62 is
    Streamlit's and not part of the script.  On a function without arguments
    it keeps one slot for the process: a filled slot is returned as it is
    and the body does not run; otherwise the body runs and its return value,
    if it returns, fills the slot. *)
Definition cache_resource (body : M GoogleAdsClient) : M GoogleAdsClient :=
  fun s =>
    match cache s with
    | Some c => (Ok c, s)
    | None =>
        match body s with
        | (Ok c, s') =>
            (Ok c, {| ui := ui s'; calls := calls s';
                      cache := Some c; constructed := constructed s' |})
        | other => other
        end
    end.

(** ** 2. Country mapping *)

Definition COUNTRY_ACCOUNTS : list (string * string) :=
  [ ("NL", "5756290882");
    ("BE", "5735473691");
    ("DE", "1946606314");
    ("DK", "8921136631");
    ("ES", "4748902087");
    ("FI", "8470338623");
    ("FR (Ravann)", "2846016798");
    ("FR (Tapis)", "7539242704");
    ("IT", "8472162607");
    ("NO", "3581636329");
    ("PL", "8467590750");
    ("SE", "8463558543");
    ("EU", "6542318847");
    ("UK", "8163355443") ].

(** A hexadecimal digit, lower case. *)
Definition hex_digit (n : nat) : ascii :=
  ascii_of_nat (if (n <? 10)%nat then 48 + n else 87 + n).

(** [repr(text)] for a [str]: single quotes, or double quotes when the text
    holds a single quote and no double quote; the backslash, the quote in
    use and the ASCII control characters are escaped.  Bytes from 128 on,
    which encode characters outside ASCII, are kept. *)
Definition repr_char (quote c : ascii) : string :=
  let n := nat_of_ascii c in
  if (n =? 92)%nat then String c (String c EmptyString)
  else if Ascii.eqb c quote then String (ascii_of_nat 92) (String c EmptyString)
  else if (n =? 10)%nat then "\n"
  else if (n =? 13)%nat then "\r"
  else if (n =? 9)%nat then "\t"
  else if ((n <? 32) || (n =? 127))%nat
       then String (ascii_of_nat 92)
              (String "x" (String (hex_digit (n / 16))
                             (String (hex_digit (n mod 16)) EmptyString)))
       else String c EmptyString.

Fixpoint repr_chars (quote : ascii) (text : string) : string :=
  match text with
  | EmptyString => EmptyString
  | String c rest => repr_char quote c +:+ repr_chars quote rest
  end.

Fixpoint has_char (c : ascii) (text : string) : bool :=
  match text with
  | EmptyString => false
  | String x rest => Ascii.eqb x c || has_char c rest
  end.

Definition py_repr (text : string) : string :=
  let quote :=
    if has_char "'" text && negb (has_char (ascii_of_nat 34) text)
    then ascii_of_nat 34 else "'"%char in
  String quote (repr_chars quote text +:+ String quote EmptyString).

(** [COUNTRY_ACCOUNTS[country]]; [str] of a [KeyError] is the [repr] of the
    key. *)
Fixpoint dict_getitem (d : list (string * string)) (key : string) : pyres string :=
  match d with
  | [] => inl (mkExn KeyError (py_repr key))
  | (k, v) :: rest => if String.eqb k key then inr v else dict_getitem rest key
  end.

(** The pattern [^\d+$] on the ASCII strings of the registry. *)
Definition is_digit (c : ascii) : bool :=
  ((48 <=? nat_of_ascii c) && (nat_of_ascii c <=? 57))%nat.

Fixpoint all_digits (s : string) : bool :=
  match s with
  | EmptyString => true
  | String c rest => is_digit c && all_digits rest
  end.

Definition matches_digits (s : string) : bool :=
  negb (String.eqb s "") && all_digits s.

(** ** Required environment variables *)

(** [get_env_var], lines 45-50; [env] is [os.environ] after [load_dotenv()]. *)
Definition get_env_var (env : gmap string string) (key : string) : M string :=
  match env !! key with
  | Some value =>
      if String.eqb value ""
      then (st_error ("Missing required environment variable: " ++ key) ;;; st_stop)
      else ret value
  | None => (st_error ("Missing required environment variable: " ++ key) ;;; st_stop)
  end.

Record Config : Type := mkConfig {
  developer_token : string;
  client_id : string;
  client_secret : string;
  refresh_token : string;
  login_customer_id : string;
  use_proto_plus : bool
}.

(** [GOOGLE_ADS_CONFIG], lines 53-60: the entries of the dict display are
    evaluated top to bottom. *)
Definition GOOGLE_ADS_CONFIG (env : gmap string string) : M Config :=
  dt <- get_env_var env "DEVELOPER_TOKEN" ;;
  ci <- get_env_var env "CLIENT_ID" ;;
  cs <- get_env_var env "CLIENT_SECRET" ;;
  rt <- get_env_var env "REFRESH_TOKEN" ;;
  lc <- get_env_var env "MCC_CUSTOMER_ID" ;;
  ret {| developer_token := dt; client_id := ci; client_secret := cs;
         refresh_token := rt; login_customer_id := lc; use_proto_plus := true |}.

Definition REQUIRED_KEYS : list string :=
  ["DEVELOPER_TOKEN"; "CLIENT_ID"; "CLIENT_SECRET"; "REFRESH_TOKEN"; "MCC_CUSTOMER_ID"].

(** A key is unusable when it is absent or bound to the empty string. *)
Definition missing (env : gmap string string) (key : string) : bool :=
  match env !! key with
  | Some value => String.eqb value ""
  | None => true
  end.

(** ** The Google Ads library, as seen from the script *)

(** A row of a search response, with the attributes the script reads. *)
Record GoogleAdsRow : Type := mkRow {
  customer_client_client_customer : pyval;
  customer_client_descriptive_name : pyval;
  campaign_id : pyval;
  campaign_name : pyval;
  metrics_impressions : pyval;
  metrics_clicks : pyval;
  metrics_cost_micros : pyval
}.

(** A search response is iterated lazily: it yields rows and then either
    ends or raises. *)
Definition Response : Type := (list GoogleAdsRow * option Exn)%type.

(** What the libraries do at each call.  The first four fields are the
    Google Ads library, given the calls made before; [None] in the first two
    means the call returns normally.  The last field is Streamlit's
    [st.dataframe], which converts the table it is given and can refuse it
    (an integer that does not fit the column type, for one): the exception
    it raises for a table, or [None] when it shows it. *)
Record Api : Type := mkApi {
  load_from_dict : list ApiCall -> Config -> option Exn;
  get_service : list ApiCall -> string -> option Exn;
  list_accessible_customers : list ApiCall -> pyres (list string);
  search : list ApiCall -> string -> string -> pyres Response;
  dataframe_error : list (gmap string cell) -> option Exn
}.

(** [st.dataframe(table)]: nothing is shown when the conversion raises. *)
Definition st_dataframe (api : Api) (table : list (gmap string cell)) : M unit :=
  match dataframe_error api table with
  | Some e => raise e
  | None => show (Dataframe table)
  end.

Section Script.

Variable api : Api.

(** [GoogleAdsClient.load_from_dict(config)]: a new client object when it
    returns. *)
Definition call_load_from_dict (config : Config) : M GoogleAdsClient :=
  fun s =>
    let s' := {| ui := ui s; calls := calls s ++ [CallLoadFromDict];
                 cache := cache s; constructed := constructed s |} in
    match load_from_dict api (calls s) config with
    | Some e => (Raised e, s')
    | None =>
        (Ok (mkClient (constructed s)),
         {| ui := ui s'; calls := calls s'; cache := cache s';
            constructed := S (constructed s') |})
    end.

(** [client.get_service(name)]. *)
Definition call_get_service (client : GoogleAdsClient) (name : string) : M unit :=
  fun s =>
    match record_call (CallGetService name) s with
    | (_, s') =>
        match get_service api (calls s) name with
        | Some e => (Raised e, s')
        | None => (Ok tt, s')
        end
    end.

(** [customer_service.list_accessible_customers().resource_names]. *)
Definition call_list_accessible_customers : M (list string) :=
  fun s =>
    match record_call CallListAccessibleCustomers s with
    | (_, s') =>
        match list_accessible_customers api (calls s) with
        | inl e => (Raised e, s')
        | inr names => (Ok names, s')
        end
    end.

(** [ga_service.search(customer_id=..., query=...)]. *)
Definition call_search (customer_id query : string) : M Response :=
  fun s =>
    match record_call (CallSearch customer_id query) s with
    | (_, s') =>
        match search api (calls s) customer_id query with
        | inl e => (Raised e, s')
        | inr response => (Ok response, s')
        end
    end.

(** [for row in response: acc.append(body(row))], then [return acc]. *)
Fixpoint for_rows {A : Type} (rows : list GoogleAdsRow) (tail : option Exn)
    (body : GoogleAdsRow -> A) (acc : list A) : M (list A) :=
  match rows with
  | [] =>
      match tail with
      | None => ret acc
      | Some e => raise e
      end
  | row :: rest => for_rows rest tail body (acc ++ [body row])
  end.

(** [get_google_ads_client], lines 62-68. *)
Definition get_google_ads_client (config : Config) : M GoogleAdsClient :=
  cache_resource
    (try_except
       (call_load_from_dict config)
       (fun e => st_error ("Failed to load Google Ads client: " ++ exn_str e) ;;; st_stop)).

(** [test_google_ads_connection], lines 71-83. *)
Definition test_google_ads_connection (client : GoogleAdsClient) : M bool :=
  try_except
    (call_get_service client "CustomerService" ;;;
     resource_names <- call_list_accessible_customers ;;
     match resource_names with
     | _ :: _ => st_success "Google Ads API connection successful!" ;;; ret true
     | [] => st_warning "Connected, but no accessible customers found." ;;; ret false
     end)
    (fun e => st_error ("Google Ads API connection failed: " ++ exn_str e) ;;; ret false).

(** The two [except] clauses shared by both read operations. *)
Definition read_handler {A : Type} (e : Exn) : M (list A) :=
  if is_google_ads_exception e
  then (st_error ("Google Ads API error: " ++ exn_str e) ;;; ret [])
  else (st_error ("Unexpected error: " ++ exn_str e) ;;; ret []).

Definition accounts_query : string := "
        SELECT customer_client.client_customer, customer_client.descriptive_name
        FROM customer_client
        WHERE customer_client.level = 1
    ".

Definition account_record (row : GoogleAdsRow) : gmap string pyval :=
  <["id" := customer_client_client_customer row]>
  (<["name" := customer_client_descriptive_name row]> ∅).

(** [list_accounts_under_mcc], lines 86-107. *)
Definition list_accounts_under_mcc (client : GoogleAdsClient)
    (mcc_customer_id : string) : M (list (gmap string pyval)) :=
  call_get_service client "GoogleAdsService" ;;;
  try_except
    (response <- call_search mcc_customer_id accounts_query ;;
     for_rows (fst response) (snd response) account_record [])
    read_handler.

Definition campaign_query : string := "
        SELECT
            campaign.id,
            campaign.name,
            metrics.impressions,
            metrics.clicks,
            metrics.cost_micros
        FROM campaign
        WHERE campaign.status = 'ENABLED'
    ".

Definition campaign_record (row : GoogleAdsRow) : gmap string pyval :=
  <["campaign.id" := campaign_id row]>
  (<["campaign.name" := campaign_name row]>
  (<["metrics.impressions" := metrics_impressions row]>
  (<["metrics.clicks" := metrics_clicks row]>
  (<["metrics.cost_micros" := metrics_cost_micros row]> ∅)))).

(** [get_campaign_performance], lines 110-139. *)
Definition get_campaign_performance (client : GoogleAdsClient)
    (customer_id : string) : M (list (gmap string pyval)) :=
  call_get_service client "GoogleAdsService" ;;;
  try_except
    (response <- call_search customer_id campaign_query ;;
     for_rows (fst response) (snd response) campaign_record [])
    read_handler.

End Script.

(** ** 7. Main logic: totals and table *)

(** [row.get(key, 0) or 0]. *)
Definition metric_or_zero (key : string) (row : gmap string pyval) : pyval :=
  py_or (row_get row key (VInt 0)) (VInt 0).

(** [v / 1_000_000] for a row value. *)
Definition py_truediv_val (v : pyval) (b : Z) : pyres spec_float :=
  match v with
  | VInt z => py_truediv z b
  | VNone =>
      inl (mkExn TypeError "unsupported operand type(s) for /: 'NoneType' and 'int'")
  | VStr _ =>
      inl (mkExn TypeError "unsupported operand type(s) for /: 'str' and 'int'")
  end.

(** Lines 155-157. *)
Definition total_impressions (rows : list (gmap string pyval)) : pyres Z :=
  py_sum (map (metric_or_zero "metrics.impressions") rows).

Definition total_clicks (rows : list (gmap string pyval)) : pyres Z :=
  py_sum (map (metric_or_zero "metrics.clicks") rows).

Definition total_cost (rows : list (gmap string pyval)) : pyres spec_float :=
  pybind (py_sum (map (metric_or_zero "metrics.cost_micros") rows))
         (fun micros => py_truediv micros 1000000).

Record Totals : Type := mkTotals {
  impressions : Z;
  clicks : Z;
  cost : spec_float
}.

(** The three assignments of lines 155-157, in order. *)
Definition summarize (rows : list (gmap string pyval)) : pyres Totals :=
  pybind (total_impressions rows) (fun i =>
  pybind (total_clicks rows) (fun c =>
  pybind (total_cost rows) (fun k =>
  inr {| impressions := i; clicks := c; cost := k |}))).

(** The ["Cost (€)"] entry of line 171. *)
Definition cost_cell (row : gmap string pyval) : pyres spec_float :=
  py_truediv_val (metric_or_zero "metrics.cost_micros" row) 1000000.

(** One entry of [table_data], lines 166-172. *)
Definition table_row (row : gmap string pyval) : pyres (gmap string cell) :=
  pybind (cost_cell row) (fun k =>
  inr (<["Campaign ID" := CPy (row_get row "campaign.id" VNone)]>
      (<["Campaign Name" := CPy (row_get row "campaign.name" VNone)]>
      (<["Impressions" := CPy (row_get row "metrics.impressions" (VInt 0))]>
      (<["Clicks" := CPy (row_get row "metrics.clicks" (VInt 0))]>
      (<["Cost (€)" := CFloat k]> ∅)))))).

(** The loop of lines 164-172. *)
Fixpoint table_data_from (acc : list (gmap string cell))
    (rows : list (gmap string pyval)) : pyres (list (gmap string cell)) :=
  match rows with
  | [] => inr acc
  | row :: rest =>
      pybind (table_row row) (fun entry => table_data_from (acc ++ [entry]) rest)
  end.

Definition table_data (rows : list (gmap string pyval)) : pyres (list (gmap string cell)) :=
  table_data_from [] rows.

(** Lines 152-173. *)
Definition render (api : Api) (rows : list (gmap string pyval)) : M unit :=
  match rows with
  | [] => st_info "No campaign data found for this account."
  | _ :: _ =>
      totals <- lift (summarize rows) ;;
      st_metric "Impressions" (format_int (impressions totals)) ;;;
      st_metric "Clicks" (format_int (clicks totals)) ;;;
      st_metric "Cost" ("€" +:+ format_2f (cost totals)) ;;;
      table <- lift (table_data rows) ;;
      st_dataframe api table
  end.

(** Lines 146-150: the result of the connection test is discarded. *)
Definition main_logic (api : Api) (config : Config) (customer_id : string)
    : M (list (gmap string pyval)) :=
  client <- get_google_ads_client api config ;;
  (test_google_ads_connection api client ;;;
   get_campaign_performance api client customer_id).

(** The script from the configuration on; [country] is what the sidebar
    select box returns. *)
Definition script (api : Api) (env : gmap string string) (country : string) : M unit :=
  config <- GOOGLE_ADS_CONFIG env ;;
  customer_id <- lift (dict_getitem COUNTRY_ACCOUNTS country) ;;
  rows <- main_logic api config customer_id ;;
  render api rows.

(** ** Specification-side notions *)

(** The integer a metric field stands for once an absent or null field
    counts as zero. *)
Definition metric_int (key : string) (row : gmap string pyval) : Z :=
  match row !! key with
  | Some (VInt z) => z
  | _ => 0%Z
  end.

Definition sum_metric (key : string) (rows : list (gmap string pyval)) : Z :=
  foldr Z.add 0%Z (map (metric_int key) rows).

Definition micros_of (row : gmap string pyval) : Z :=
  metric_int "metrics.cost_micros" row.

Definition sum_micros (rows : list (gmap string pyval)) : Z :=
  sum_metric "metrics.cost_micros" rows.

(** The total cost as the specification writes it,
    [sum(r.cost_micros for r in R) / 1_000_000]: the integer sum of the cost
    fields, a null or absent one counting as zero, divided the way Python
    divides two ints. *)
Definition reference_total_cost (rows : list (gmap string pyval)) : pyres spec_float :=
  py_truediv (foldr Z.add 0%Z (map micros_of rows)) 1000000.

(** A metric field as the data model has it: absent, null or an integer. *)
Definition metric_typed (key : string) (row : gmap string pyval) : bool :=
  match row !! key with
  | None | Some VNone | Some (VInt _) => true
  | Some (VStr _) => false
  end.

Definition METRIC_KEYS : list string :=
  ["metrics.impressions"; "metrics.clicks"; "metrics.cost_micros"].

(** The row of the specification's null-field example. *)
Definition null_impressions_row : gmap string pyval :=
  <["metrics.impressions" := VNone]>
  (<["metrics.clicks" := VInt 5]>
  (<["metrics.cost_micros" := VInt 2000000]> ∅)).

(** The floats [0.0], [2.0] and [6.0]. *)
Definition float_zero : spec_float := S754_zero false.
Definition float_two : spec_float := S754_finite false 4503599627370496 (-51).
Definition float_six : spec_float := S754_finite false 6755399441055744 (-50).

(** The two rows of the specification's end-to-end scenario. *)
Definition scenario_rows : list (gmap string pyval) :=
  [ <["metrics.impressions" := VInt 100]>
    (<["metrics.clicks" := VInt 10]>
    (<["metrics.cost_micros" := VInt 5000000]> ∅));
    <["metrics.impressions" := VInt 50]>
    (<["metrics.clicks" := VInt 5]>
    (<["metrics.cost_micros" := VInt 1000000]> ∅)) ].

(** The ["Cost (€)"] column of a table, and the sum of a list of rationals. *)
Definition cost_column (table : list (gmap string cell)) : list spec_float :=
  omap (fun entry => match entry !! "Cost (€)" with
                     | Some (CFloat k) => Some k
                     | _ => None
                     end) table.

Definition Qsum (l : list Q) : Q := foldr Qplus 0%Q l.

(** A row that costs 2^34 currency units and two micros. *)
Definition huge_cost_row : gmap string pyval :=
  <["metrics.cost_micros" := VInt 17179869184000002]> ∅.

(** Two rows that cost 0.1 and 0.2. *)
Definition dime_rows : list (gmap string pyval) :=
  [ <["metrics.cost_micros" := VInt 100000]> ∅;
    <["metrics.cost_micros" := VInt 200000]> ∅ ].

(** Agreement of [py_truediv] with the IEEE division of the Standard Library
    on positive operands. *)
Definition agrees_with_SFdiv (a b : positive) : bool :=
  match py_truediv (Zpos a) (Zpos b),
        SFdiv 53 1024 (S754_finite false a 0) (S754_finite false b 0) with
  | inr (S754_finite false m e), S754_finite false m' e' => Pos.eqb m m' && Z.eqb e e'
  | inr (S754_zero false), S754_zero false => true
  | inl _, S754_infinity false => true
  | _, _ => false
  end.

Definition division_samples : list (positive * positive) :=
  [ (1, 1000000); (2, 1000000); (100000, 1000000); (200000, 1000000);
    (300000, 1000000); (2000000, 1000000); (5000000, 1000000);
    (6000000, 1000000); (123456789, 1000000); (9007199254740993, 1000000);
    (17179869184000002, 1000000); (9223372036854775807, 1000000);
    (1, 3); (2, 3); (9007199254740993, 1); (18014398509481983, 7);
    (7, 18014398509481983);
    (1, 100000000000000000000000000000000000000000000000000000000000000000000) ]%positive.

(** The floats [0.1], [0.2] and [0.3]. *)
Definition float_one_tenth : spec_float := S754_finite false 7205759403792794 (-56).
Definition float_two_tenths : spec_float := S754_finite false 7205759403792794 (-55).
Definition float_three_tenths : spec_float := S754_finite false 5404319552844595 (-54).

(** All three metric fields of a row are absent, null or integers. *)
Definition row_typed (row : gmap string pyval) : bool :=
  forallb (fun key => metric_typed key row) METRIC_KEYS.

(** A state after more events were shown, or more calls were made. *)
Definition with_ui (s : state) (events : list UiEvent) : state :=
  {| ui := ui s ++ events; calls := calls s; cache := cache s;
     constructed := constructed s |}.

Definition with_calls (s : state) (made : list ApiCall) : state :=
  {| ui := ui s; calls := calls s ++ made; cache := cache s;
     constructed := constructed s |}.

(** Whether a text occurs in another, and whether a text is only spaces and
    line breaks. *)
Definition occurs (needle text : string) : bool :=
  match String.index 0 needle text with
  | Some _ => true
  | None => false
  end.

Fixpoint blank (text : string) : bool :=
  match text with
  | EmptyString => true
  | String c rest =>
      (Ascii.eqb c " " || Ascii.eqb c (ascii_of_nat 10)) && blank rest
  end.

(** The [try] statement both read operations share, up to the query and
    the record built per row. *)
Definition read_body (api : Api) (A : Type) (record : GoogleAdsRow -> A)
    (customer_id query : string) : M (list A) :=
  try_except
    (response <- call_search api customer_id query ;;
     for_rows (fst response) (snd response) record [])
    read_handler.

(** The accessible-accounts probe of lines 73-74: what obtaining the
    customer service and listing the accessible customers yield, given the
    calls made so far. *)
Definition probe (api : Api) (history : list ApiCall) : pyres (list string) :=
  match get_service api history "CustomerService" with
  | Some e => inl e
  | None => list_accessible_customers api (history ++ [CallGetService "CustomerService"])
  end.

(** The script run once per interaction, each run starting from the state
    the previous one left behind; the cache slot lives as long as the
    process. *)
Definition reruns (api : Api) (env : gmap string string)
    (countries : list string) (s : state) : state :=
  foldl (fun s' country => snd (script api env country s')) s countries.

(** The cache slot and the construction count agree: nothing built and
    nothing cached, or one client built and that client cached. *)
Definition cache_inv (s : state) : Prop :=
  match cache s with
  | None => constructed s = 0%nat
  | Some c => constructed s = 1%nat /\ c = mkClient 0
  end.

(** A statement that leaves the cache slot and the count alone. *)
Definition frame {A : Type} (m : M A) : Prop :=
  forall s, cache (snd (m s)) = cache s /\ constructed (snd (m s)) = constructed s.

(** A statement that keeps [cache_inv]. *)
Definition preserves {A : Type} (m : M A) : Prop :=
  forall s, cache_inv s -> cache_inv (snd (m s)).

(** An environment in which the first two required variables are missing. *)
Definition two_missing_env : gmap string string :=
  <["CLIENT_SECRET" := "secret"]>
  (<["REFRESH_TOKEN" := "refresh"]>
  (<["MCC_CUSTOMER_ID" := "1234567890"]> ∅)).

(** An environment with all five required variables. *)
Definition full_env : gmap string string :=
  <["DEVELOPER_TOKEN" := "token"]>
  (<["CLIENT_ID" := "id"]>
  (<["CLIENT_SECRET" := "secret"]>
  (<["REFRESH_TOKEN" := "refresh"]>
  (<["MCC_CUSTOMER_ID" := "1234567890"]> ∅)))).

Definition sample_row : GoogleAdsRow :=
  {| customer_client_client_customer := VStr "customers/5756290882";
     customer_client_descriptive_name := VStr "NL";
     campaign_id := VInt 1;
     campaign_name := VStr "Rugs";
     metrics_impressions := VInt 100;
     metrics_clicks := VInt 10;
     metrics_cost_micros := VInt 5000000 |}.

(** A library in which every call returns normally. *)
Definition healthy_api : Api :=
  {| load_from_dict := fun _ _ => None;
     get_service := fun _ _ => None;
     list_accessible_customers := fun _ => inr ["customers/5756290882"];
     search := fun _ _ _ => inr ([sample_row], None);
     dataframe_error := fun _ => None |}.

(** A library whose [get_service] raises for the Google Ads service. *)
Definition service_down_api : Api :=
  {| load_from_dict := fun _ _ => None;
     get_service := fun _ name =>
       if String.eqb name "GoogleAdsService"
       then Some (mkExn OtherException "service unavailable")
       else None;
     list_accessible_customers := fun _ => inr ["customers/5756290882"];
     search := fun _ _ _ => inr ([sample_row], None);
     dataframe_error := fun _ => None |}.

(** A library whose connectivity probe raises. *)
Definition probe_down_api : Api :=
  {| load_from_dict := fun _ _ => None;
     get_service := fun _ _ => None;
     list_accessible_customers := fun _ =>
       inl (mkExn GoogleAdsException "permission denied");
     search := fun _ _ _ => inr ([sample_row], None);
     dataframe_error := fun _ => None |}.

(** A library whose probe finds no accessible customers. *)
Definition no_customers_api : Api :=
  {| load_from_dict := fun _ _ => None;
     get_service := fun _ _ => None;
     list_accessible_customers := fun _ => inr [];
     search := fun _ _ _ => inr ([sample_row], None);
     dataframe_error := fun _ => None |}.

Definition sample_config : Config :=
  {| developer_token := "token"; client_id := "id"; client_secret := "secret";
     refresh_token := "refresh"; login_customer_id := "1234567890";
     use_proto_plus := true |}.

(** ** Startup advisories, lines 13-21 *)

(** [text.endswith(suffix)]. *)
Definition endswith (text suffix : string) : bool :=
  let n := String.length text in
  let m := String.length suffix in
  (m <=? n)%nat && String.eqb (String.substring (n - m) m text) suffix.


(** The list comprehension of line 19; [listing] is [os.listdir('.')]. *)
Definition is_yaml (f : string) : bool := endswith f ".yaml" || endswith f ".yml".

Definition yaml_files (listing : list string) : list string :=
  List.filter is_yaml listing.

(** The text of the warning of line 21. *)
Definition yaml_warning_text (listing : list string) : string :=
  "YAML credential file(s) detected: "
  +:+ String.concat ", " (yaml_files listing)
  +:+ ". Please delete them for maximum security.".

(** Lines 20-21. *)
Definition yaml_warning (listing : list string) : M unit :=
  if existsb (occurs "google-ads") (yaml_files listing)
  then st_warning (yaml_warning_text listing)
  else ret tt.


(** A name with the extension ".yaml" or ".yml". *)
Definition yaml_name (f : string) : Prop :=
  exists stem, f = stem +:+ ".yaml" \/ f = stem +:+ ".yml".

(** [needle] is a contiguous part of [text]. *)
Definition part_of (needle text : string) : Prop :=
  exists before after, text = before +:+ needle +:+ after.

(** ** Further specification-side notions *)

(** The prefix of the message a read operation shows for an exception. *)
Definition read_error_text (e : Exn) : string :=
  if is_google_ads_exception e
  then "Google Ads API error: " +:+ exn_str e
  else "Unexpected error: " +:+ exn_str e.

(** The calls one run of the script can make for an account, in order. *)
Definition run_calls (customer_id : string) : list ApiCall :=
  [ CallLoadFromDict;
    CallGetService "CustomerService";
    CallListAccessibleCustomers;
    CallGetService "GoogleAdsService";
    CallSearch customer_id campaign_query ].

(** A statement whose library calls are some of [allowed], in that order. *)
Definition trace {A : Type} (allowed : list ApiCall) (m : M A) : Prop :=
  forall s, exists made,
    calls (snd (m s)) = calls s ++ made /\ made `sublist_of` allowed.

(** A library in which building the client fails the first time and goes
    through afterwards. *)
Definition flaky_api : Api :=
  {| load_from_dict := fun history _ =>
       match history with
       | [] => Some (mkExn OtherException "invalid credentials")
       | _ :: _ => None
       end;
     get_service := fun _ _ => None;
     list_accessible_customers := fun _ => inr ["customers/5756290882"];
     search := fun _ _ _ => inr ([sample_row], None);
     dataframe_error := fun _ => None |}.

(** A library whose campaign search yields one row and then raises, while
    every other search goes through. *)
Definition campaigns_down_api : Api :=
  {| load_from_dict := fun _ _ => None;
     get_service := fun _ _ => None;
     list_accessible_customers := fun _ => inr ["customers/5756290882"];
     search := fun _ _ query =>
       if String.eqb query campaign_query
       then inr ([sample_row], Some (mkExn GoogleAdsException "quota exceeded"))
       else inr ([sample_row], None);
     dataframe_error := fun _ => None |}.

(** The columns of the table. *)
Definition TABLE_COLUMNS : gset string :=
  {["Campaign ID"; "Campaign Name"; "Impressions"; "Clicks"; "Cost (€)"]}.

(** The bound below which a quotient by a positive int fits a float. *)
Definition FLOAT_RANGE : Z := 2 ^ 1023.

(** A metric field holds a non-empty string. *)
Definition metric_is_text (key : string) (row : gmap string pyval) : bool :=
  match row !! key with
  | Some (VStr text) => negb (String.eqb text "")
  | _ => false
  end.

(** What a read operation does in a state: it does not stop the script, it
    leaves the client cache alone, it raises exactly when [get_service]
    raises (then no search was made), and otherwise it returns a list. *)
Definition read_outcome {A : Type} (api : Api) (s : state) (operation : M (list A))
    : Prop :=
  fst (operation s) <> Stopped
  /\ cache (snd (operation s)) = cache s
  /\ constructed (snd (operation s)) = constructed s
  /\ (forall e, fst (operation s) = Raised e
                <-> get_service api (calls s) "GoogleAdsService" = Some e)
  /\ (forall e, get_service api (calls s) "GoogleAdsService" = Some e ->
                calls (snd (operation s))
                = calls s ++ [CallGetService "GoogleAdsService"])
  /\ (get_service api (calls s) "GoogleAdsService" = None ->
      exists result, fst (operation s) = Ok result).

(** What lines 166-172 put in the table for a row: the five columns, the
    campaign id and name as the row has them ([None] when absent), the
    impressions and clicks as the row has them ([0] when absent), and the
    float of the cost division. *)
Definition table_entry (row : gmap string pyval) (entry : gmap string cell) : Prop :=
  dom entry = TABLE_COLUMNS
  /\ entry !! "Campaign ID" = Some (CPy (default VNone (row !! "campaign.id")))
  /\ entry !! "Campaign Name" = Some (CPy (default VNone (row !! "campaign.name")))
  /\ entry !! "Impressions" = Some (CPy (default (VInt 0) (row !! "metrics.impressions")))
  /\ entry !! "Clicks" = Some (CPy (default (VInt 0) (row !! "metrics.clicks")))
  /\ exists k, cost_cell row = inr k /\ entry !! "Cost (€)" = Some (CFloat k).

(** A row whose clicks field holds a text. *)
Definition text_clicks_row : gmap string pyval :=
  <["metrics.impressions" := VInt 7]>
  (<["metrics.clicks" := VStr "n/a"]>
  (<["metrics.cost_micros" := VInt 1000000]> ∅)).

Local Open Scope Z_scope.

(** ** The account registry *)

(** C9: in the static account registry every label is non-empty, no label
    occurs twice, and every account id is a non-empty string of decimal
    digits. *)
Theorem registry_wellformed :
  Forall (fun entry => fst entry <> "" /\ matches_digits (snd entry) = true)
         COUNTRY_ACCOUNTS
  /\ NoDup (map fst COUNTRY_ACCOUNTS).
Proof.
  split.
  - unfold COUNTRY_ACCOUNTS.
    repeat (constructor; [split; [simpl; discriminate | reflexivity] |]).
    constructor.
  - apply (bool_decide_unpack _). vm_compute. reflexivity.
Qed.

(** Every label of the registry resolves to its account id. *)
Lemma registry_lookup (label id : string) :
  (label, id) ∈ COUNTRY_ACCOUNTS -> dict_getitem COUNTRY_ACCOUNTS label = inr id.
Proof.
  unfold COUNTRY_ACCOUNTS. intros Hin.
  repeat (apply elem_of_cons in Hin as [Heq | Hin];
          [injection Heq as -> ->; reflexivity |]).
  by apply elem_of_nil in Hin.
Qed.

(** ** The aggregator *)

Lemma show_with_ui (ev : UiEvent) (s : state) : show ev s = (Ok tt, with_ui s [ev]).
Proof. reflexivity. Qed.

Lemma with_ui_app (s : state) (evs evs' : list UiEvent) :
  with_ui (with_ui s evs) evs' = with_ui s (evs ++ evs').
Proof. unfold with_ui. simpl. by rewrite <- app_assoc. Qed.

Lemma metric_or_zero_absent (key : string) (row : gmap string pyval) :
  row !! key = None \/ row !! key = Some VNone ->
  metric_or_zero key row = VInt 0.
Proof.
  unfold metric_or_zero, row_get. by intros [-> | ->].
Qed.

Lemma metric_or_zero_insert_zero (key key' : string) (row : gmap string pyval) :
  row !! key = None \/ row !! key = Some VNone ->
  metric_or_zero key' (<[key := VInt 0]> row) = metric_or_zero key' row.
Proof.
  intros Hnull. destruct (decide (key = key')) as [<- | Hne].
  - rewrite (metric_or_zero_absent key row Hnull).
    unfold metric_or_zero, row_get. by rewrite lookup_insert_eq.
  - unfold metric_or_zero, row_get. by rewrite lookup_insert_ne.
Qed.

(** The end-to-end scenario: totals 150, 15 and 6.0, shown as "€6.00". *)
Example summarize_scenario :
  summarize scenario_rows
  = inr {| impressions := 150; clicks := 15; cost := float_six |}
  /\ format_2f float_six = "6.00".
Proof. split; reflexivity. Qed.

Example format_int_samples :
  format_int 0 = "0" /\ format_int 1234567 = "1,234,567" /\ format_int (-1000) = "-1,000".
Proof. repeat split. Qed.

Example format_2f_samples :
  format_2f float_two = "2.00"
  /\ format_2f float_three_tenths = "0.30"
  /\ format_2f (S754_finite false 4503599627370497 (-18)) = "17,179,869,184.00".
Proof. repeat split. Qed.

(** C7: the three totals computed over an empty row list are [0], [0] and
    [0.0]; the page itself computes no totals for an empty list and shows
    the no-data message. *)
Theorem summarize_empty :
  summarize [] = inr {| impressions := 0; clicks := 0; cost := float_zero |}
  /\ (F2Q float_zero == 0)%Q
  /\ forall (api : Api) (s : state),
       render api [] s
       = (Ok tt, with_ui s [Msg Info "No campaign data found for this account."]).
Proof.
  split; [reflexivity |]. split; [reflexivity |].
  intros api s. unfold render, st_info. apply show_with_ui.
Qed.

(** ** True division: rounding error *)

(** On the samples, the quotient is the one IEEE division computes. *)
Lemma py_truediv_samples :
  forallb (fun ab => agrees_with_SFdiv (fst ab) (snd ab)) division_samples = true.
Proof. vm_compute. reflexivity. Qed.

Lemma round_half_even_error (n d : Z) :
  0 < d -> - d <= 2 * (round_half_even n d * d - n) <= d.
Proof.
  intros Hd. unfold round_half_even.
  pose proof (Z.div_mod n d ltac:(lia)) as Hdm.
  pose proof (Z.mod_pos_bound n d Hd) as Hr.
  destruct (Z.compare_spec (2 * (n mod d)) d) as [Heq | Hlt | Hgt].
  - destruct (Z.even (n / d)); nia.
  - nia.
  - nia.
Qed.

Lemma round_half_even_nonneg (n d : Z) :
  0 <= n -> 0 < d -> 0 <= round_half_even n d.
Proof.
  intros Hn Hd. unfold round_half_even.
  pose proof (Z.div_pos n d Hn Hd).
  destruct (2 * (n mod d) ?= d); [destruct (Z.even (n / d)) | |]; lia.
Qed.

Lemma ilog2_quot_lt (a b k : Z) :
  0 < a -> 0 < b -> 0 <= k -> a < 2 ^ k * b -> ilog2_quot a b < k.
Proof.
  intros Ha Hb Hk Hab. unfold ilog2_quot.
  pose proof (Z.log2_spec a Ha) as [Hla _].
  pose proof (Z.log2_spec b Hb) as [_ Hlb].
  pose proof (Z.log2_nonneg a) as Hna.
  pose proof (Z.log2_nonneg b) as Hnb.
  set (e0 := Z.log2 a - Z.log2 b) in *.
  destruct (Z.leb_spec (b * 2 ^ Z.max 0 e0) (a * 2 ^ Z.max 0 (- e0))) as [Hle | Hgt].
  - destruct (Z.lt_ge_cases e0 k) as [Hlt | Hge]; [exact Hlt | exfalso].
    rewrite (Z.max_r 0 e0), (Z.max_l 0 (- e0)) in Hle by lia.
    assert (2 ^ k <= 2 ^ e0) by (apply Z.pow_le_mono_r; lia).
    simpl in Hle. nia.
  - destruct (Z.le_gt_cases e0 k) as [Hlt | Hge]; [lia | exfalso].
    assert (Hp : 2 ^ (k + (Z.log2 b + 1)) <= 2 ^ Z.log2 a)
      by (apply Z.pow_le_mono_r; lia).
    rewrite Z.pow_add_r in Hp by lia.
    assert (0 < 2 ^ k) by (apply Z.pow_pos_nonneg; lia).
    nia.
Qed.

Lemma metric_or_zero_typed (key : string) (row : gmap string pyval) :
  metric_typed key row = true ->
  metric_or_zero key row = VInt (metric_int key row).
Proof.
  unfold metric_typed, metric_or_zero, metric_int, row_get, py_or.
  destruct (row !! key) as [[| z | s] |]; simpl; try done.
  destruct (Z.eqb_spec z 0) as [-> | _]; done.
Qed.

Lemma py_sum_from_typed (key : string) (rows : list (gmap string pyval)) (acc : Z) :
  Forall (fun row => metric_typed key row = true) rows ->
  py_sum_from acc (map (metric_or_zero key) rows) = inr (acc + sum_metric key rows).
Proof.
  intros Htyped. revert acc.
  induction Htyped as [| row rows Hrow _ IH]; intros acc; simpl.
  - f_equal. unfold sum_metric. simpl. lia.
  - rewrite (metric_or_zero_typed key row Hrow), IH.
    f_equal. unfold sum_metric. simpl. lia.
Qed.

Lemma total_cost_typed (rows : list (gmap string pyval)) :
  Forall (fun row => metric_typed "metrics.cost_micros" row = true) rows ->
  total_cost rows = py_truediv (sum_micros rows) 1000000.
Proof.
  intros Htyped. unfold total_cost, py_sum.
  by rewrite (py_sum_from_typed _ _ 0 Htyped).
Qed.

Lemma cost_cell_typed (row : gmap string pyval) :
  metric_typed "metrics.cost_micros" row = true ->
  cost_cell row = py_truediv (micros_of row) 1000000.
Proof.
  intros Htyped. unfold cost_cell.
  by rewrite (metric_or_zero_typed _ _ Htyped).
Qed.

Lemma cost_column_cons (entry : gmap string cell) (entries : list (gmap string cell))
    (k : spec_float) :
  entry !! "Cost (€)" = Some (CFloat k) ->
  cost_column (entry :: entries) = k :: cost_column entries.
Proof. intros Hk. unfold cost_column. simpl omap. by rewrite Hk. Qed.

Lemma row_typed_metric (row : gmap string pyval) (key : string) :
  row_typed row = true -> key ∈ METRIC_KEYS -> metric_typed key row = true.
Proof.
  unfold row_typed. rewrite forallb_forall. intros Hall Hin.
  apply Hall. by apply list_elem_of_In.
Qed.

Lemma rows_typed_metric (rows : list (gmap string pyval)) (key : string) :
  Forall (fun row => row_typed row = true) rows -> key ∈ METRIC_KEYS ->
  Forall (fun row => metric_typed key row = true) rows.
Proof.
  intros Hall Hin. eapply Forall_impl; [exact Hall |].
  intros row Hrow. by apply row_typed_metric.
Qed.

Lemma summarize_typed (rows : list (gmap string pyval)) :
  Forall (fun row => row_typed row = true) rows ->
  summarize rows =
  pybind (py_truediv (sum_micros rows) 1000000) (fun k =>
    inr {| impressions := sum_metric "metrics.impressions" rows;
           clicks := sum_metric "metrics.clicks" rows;
           cost := k |}).
Proof.
  intros Htyped. unfold summarize, total_impressions, total_clicks, py_sum.
  rewrite (py_sum_from_typed "metrics.impressions" rows 0)
    by (apply rows_typed_metric; [done | set_solver]).
  rewrite (py_sum_from_typed "metrics.clicks" rows 0)
    by (apply rows_typed_metric; [done | set_solver]).
  rewrite total_cost_typed by (apply rows_typed_metric; [done | set_solver]).
  reflexivity.
Qed.

(** C6: a metric field that is null or absent in a row is coerced to zero
    before it is summed.  The totals are those of the row list in which the
    field is set to [0]; for rows whose metric fields are integers, null or
    absent, each of the three sums is the integer sum in which a row
    contributes its integer, and [0] when the field is null or absent (the
    cost sum is then divided by 1,000,000); and the totals of the single row
    with null impressions, 5 clicks and 2,000,000 cost micros are 0, 5 and
    2.0. *)
Theorem summarize_null_as_zero :
  (forall (pre post : list (gmap string pyval)) (row : gmap string pyval)
          (key : string),
      key ∈ METRIC_KEYS ->
      row !! key = None \/ row !! key = Some VNone ->
      metric_or_zero key row = VInt 0
      /\ summarize (pre ++ row :: post)
         = summarize (pre ++ <[key := VInt 0]> row :: post))
  /\ (forall rows : list (gmap string pyval),
        Forall (fun row => row_typed row = true) rows ->
        total_impressions rows = inr (sum_metric "metrics.impressions" rows)
        /\ total_clicks rows = inr (sum_metric "metrics.clicks" rows)
        /\ total_cost rows = py_truediv (sum_metric "metrics.cost_micros" rows) 1000000)
  /\ (forall (key : string) (row : gmap string pyval) (rows : list (gmap string pyval)),
        sum_metric key [] = 0
        /\ sum_metric key (row :: rows)
           = match row !! key with
             | Some (VInt z) => z
             | Some VNone | Some (VStr _) | None => 0
             end + sum_metric key rows)
  /\ summarize [null_impressions_row]
     = inr {| impressions := 0; clicks := 5; cost := float_two |}
  /\ (F2Q float_two == 2)%Q.
Proof.
  split; [| split; [| split; [| split; reflexivity]]].
  - intros pre post row key _ Hnull. split.
    + by apply metric_or_zero_absent.
    + unfold summarize, total_impressions, total_clicks, total_cost.
      rewrite !map_app. simpl map.
      by rewrite !(metric_or_zero_insert_zero key _ row Hnull).
  - intros rows Htyped. unfold total_impressions, total_clicks, py_sum.
    rewrite (py_sum_from_typed "metrics.impressions" rows 0)
      by (apply rows_typed_metric; [done | by left]).
    rewrite (py_sum_from_typed "metrics.clicks" rows 0)
      by (apply rows_typed_metric; [done | by right; left]).
    rewrite total_cost_typed by (apply rows_typed_metric; [done | by right; right; left]).
    done.
  - intros key row rows. split; [reflexivity |].
    change (sum_metric key (row :: rows))
      with (metric_int key row + sum_metric key rows).
    unfold metric_int. by destruct (row !! key) as [[| z | text] |].
Qed.

Lemma summarize_null_as_zero_witness :
  "metrics.impressions" ∈ METRIC_KEYS
  /\ (null_impressions_row !! "metrics.impressions" = None
      \/ null_impressions_row !! "metrics.impressions" = Some VNone)
  /\ metric_or_zero "metrics.impressions" null_impressions_row = VInt 0
  /\ summarize ([] ++ null_impressions_row :: [])
     = summarize ([] ++ <["metrics.impressions" := VInt 0]> null_impressions_row :: [])
  /\ Forall (fun row => row_typed row = true) [null_impressions_row]
  /\ total_impressions [null_impressions_row]
     = inr (sum_metric "metrics.impressions" [null_impressions_row]).
Proof.
  assert (Hk : "metrics.impressions" ∈ METRIC_KEYS) by (apply elem_of_cons; by left).
  assert (Hn : null_impressions_row !! "metrics.impressions" = None
               \/ null_impressions_row !! "metrics.impressions" = Some VNone)
    by (right; reflexivity).
  assert (Ht : Forall (fun row => row_typed row = true) [null_impressions_row])
    by (repeat constructor).
  split; [exact Hk |]. split; [exact Hn |].
  destruct (proj1 summarize_null_as_zero [] [] null_impressions_row
                  "metrics.impressions" Hk Hn) as [Hzero Hsame].
  split; [exact Hzero |]. split; [exact Hsame |]. split; [exact Ht |].
  exact (proj1 (proj1 (proj2 summarize_null_as_zero) [null_impressions_row] Ht)).
Defined.

Lemma table_row_cost (row : gmap string pyval) (k : spec_float) :
  cost_cell row = inr k ->
  exists entry, table_row row = inr entry /\ entry !! "Cost (€)" = Some (CFloat k).
Proof.
  intros Hk. unfold table_row. rewrite Hk. simpl. eexists; split; [reflexivity |].
  do 4 (rewrite lookup_insert_ne by done). by rewrite lookup_insert_eq.
Qed.

(** C10 as stated fails: for two rows costing 0.1 and 0.2 the total cost is
    the float 0.3, the table shows the floats 0.1 and 0.2, and the total is
    not the sum of these two. *)
Lemma total_cost_differs_from_table :
  total_cost dime_rows = inr float_three_tenths
  /\ (exists table : list (gmap string cell),
        table_data dime_rows = inr table
        /\ cost_column table = [float_one_tenth; float_two_tenths])
  /\ ~ (F2Q float_three_tenths
        == Qsum (map F2Q [float_one_tenth; float_two_tenths]))%Q.
Proof.
  split; [vm_compute; reflexivity |]. split.
  - unfold table_data, dime_rows. simpl table_data_from.
    destruct (table_row_cost (<["metrics.cost_micros" := VInt 100000]> ∅)
                float_one_tenth) as (e1 & -> & H1); [vm_compute; reflexivity |].
    destruct (table_row_cost (<["metrics.cost_micros" := VInt 200000]> ∅)
                float_two_tenths) as (e2 & -> & H2); [vm_compute; reflexivity |].
    simpl. eexists; split; [reflexivity |].
    rewrite (cost_column_cons e1 [e2] _ H1), (cost_column_cons e2 [] _ H2).
    reflexivity.
  - intros H. vm_compute in H. discriminate H.
Qed.

(** ** The credential loader *)

Lemma get_env_var_cases (env : gmap string string) (key : string) (s : state) :
  get_env_var env key s =
  if missing env key
  then (Stopped, with_ui s [Msg Error ("Missing required environment variable: " +:+ key)])
  else (Ok (default "" (env !! key)), s).
Proof.
  unfold get_env_var, missing.
  destruct (env !! key) as [value |]; [destruct (String.eqb value "") |]; reflexivity.
Qed.

Lemma missing_false (env : gmap string string) (key : string) :
  missing env key = false ->
  exists value, env !! key = Some value /\ value <> "" /\ default "" (env !! key) = value.
Proof.
  unfold missing. destruct (env !! key) as [value |]; [| discriminate].
  destruct (String.eqb_spec value ""); [discriminate |]. intros _. by exists value.
Qed.

(** The loader stops at the first required key that is missing, in the
    order of the dict display, and otherwise returns the five values read. *)
Lemma config_cases (env : gmap string string) (s : state) :
  GOOGLE_ADS_CONFIG env s =
  match List.find (missing env) REQUIRED_KEYS with
  | Some key =>
      (Stopped, with_ui s [Msg Error ("Missing required environment variable: " +:+ key)])
  | None =>
      (Ok {| developer_token := default "" (env !! "DEVELOPER_TOKEN");
             client_id := default "" (env !! "CLIENT_ID");
             client_secret := default "" (env !! "CLIENT_SECRET");
             refresh_token := default "" (env !! "REFRESH_TOKEN");
             login_customer_id := default "" (env !! "MCC_CUSTOMER_ID");
             use_proto_plus := true |}, s)
  end.
Proof.
  unfold GOOGLE_ADS_CONFIG, bind, REQUIRED_KEYS. simpl List.find.
  rewrite get_env_var_cases. destruct (missing env "DEVELOPER_TOKEN"); [reflexivity |].
  rewrite get_env_var_cases. destruct (missing env "CLIENT_ID"); [reflexivity |].
  rewrite get_env_var_cases. destruct (missing env "CLIENT_SECRET"); [reflexivity |].
  rewrite get_env_var_cases. destruct (missing env "REFRESH_TOKEN"); [reflexivity |].
  rewrite get_env_var_cases. destruct (missing env "MCC_CUSTOMER_ID"); reflexivity.
Qed.

Lemma find_first (P : string -> bool) (pre post : list string) (key : string) :
  Forall (fun k => P k = false) pre -> P key = true ->
  List.find P (pre ++ key :: post) = Some key.
Proof.
  induction 1 as [| k pre Hk _ IH]; intros Hkey; simpl.
  - by rewrite Hkey.
  - rewrite Hk. by apply IH.
Qed.

Lemma find_some_missing (P : string -> bool) (keys : list string) (key : string) :
  key ∈ keys -> P key = true ->
  exists first, List.find P keys = Some first /\ first ∈ keys /\ P first = true.
Proof.
  intros Hin Hkey. destruct (List.find P keys) as [first |] eqn:Hfind.
  - apply find_some in Hfind as [Hin' Hp]. exists first.
    split; [done |]. split; [by apply list_elem_of_In | done].
  - exfalso. apply list_elem_of_In in Hin.
    pose proof (find_none _ _ Hfind key Hin) as Hnone. congruence.
Qed.

(** C2 (amended): if all five required variables are present and non-empty
    the loader returns a record holding exactly the five values read, with
    nothing shown; if a required variable is missing or empty the loader
    stops after showing one message, which names the first missing or empty
    variable in the order DEVELOPER_TOKEN, CLIENT_ID, CLIENT_SECRET,
    REFRESH_TOKEN, MCC_CUSTOMER_ID; that is the variable itself when every
    variable before it is present and non-empty. *)
Theorem credential_loader (env : gmap string string) (s : state) :
  (Forall (fun key => missing env key = false) REQUIRED_KEYS ->
   exists config : Config,
     GOOGLE_ADS_CONFIG env s = (Ok config, s)
     /\ env !! "DEVELOPER_TOKEN" = Some (developer_token config)
     /\ env !! "CLIENT_ID" = Some (client_id config)
     /\ env !! "CLIENT_SECRET" = Some (client_secret config)
     /\ env !! "REFRESH_TOKEN" = Some (refresh_token config)
     /\ env !! "MCC_CUSTOMER_ID" = Some (login_customer_id config)
     /\ Forall (fun value => value <> "")
               [developer_token config; client_id config; client_secret config;
                refresh_token config; login_customer_id config])
  /\ (forall key : string,
        key ∈ REQUIRED_KEYS -> missing env key = true ->
        exists first : string,
          first ∈ REQUIRED_KEYS /\ missing env first = true
          /\ GOOGLE_ADS_CONFIG env s =
             (Stopped,
              with_ui s [Msg Error ("Missing required environment variable: " +:+ first)])
          /\ (forall pre post : list string,
                REQUIRED_KEYS = pre ++ key :: post ->
                Forall (fun k => missing env k = false) pre -> first = key)).
Proof.
  split.
  - intros Hall. rewrite config_cases.
    destruct (List.find (missing env) REQUIRED_KEYS) as [key |] eqn:Hfind.
    + apply find_some in Hfind as [Hin Hmiss].
      rewrite Forall_forall in Hall. apply list_elem_of_In in Hin.
      rewrite (Hall key Hin) in Hmiss. discriminate.
    + unfold REQUIRED_KEYS in Hall.
      repeat (apply Forall_cons in Hall as [?Hk Hall]).
      destruct (missing_false _ _ Hk) as (dt & Hdt & Hdt' & ->).
      destruct (missing_false _ _ Hk0) as (ci & Hci & Hci' & ->).
      destruct (missing_false _ _ Hk1) as (cs & Hcs & Hcs' & ->).
      destruct (missing_false _ _ Hk2) as (rt & Hrt & Hrt' & ->).
      destruct (missing_false _ _ Hk3) as (lc & Hlc & Hlc' & ->).
      eexists; split; [reflexivity |]. simpl.
      repeat (split; [done |]). repeat constructor; done.
  - intros key Hin Hmiss.
    destruct (find_some_missing (missing env) REQUIRED_KEYS key Hin Hmiss)
      as (first & Hfind & Hfin & Hfmiss).
    exists first. split; [done |]. split; [done |]. split.
    + rewrite config_cases. by rewrite Hfind.
    + intros pre post Hsplit Hpre.
      rewrite Hsplit in Hfind. rewrite (find_first _ pre post key Hpre Hmiss) in Hfind.
      congruence.
Qed.

Lemma credential_loader_witness :
  Forall (fun key => missing full_env key = false) REQUIRED_KEYS
  /\ (exists config : Config,
        GOOGLE_ADS_CONFIG full_env initial_state = (Ok config, initial_state)
        /\ developer_token config = "token"
        /\ login_customer_id config = "1234567890")
  /\ "CLIENT_ID" ∈ REQUIRED_KEYS
  /\ missing two_missing_env "CLIENT_ID" = true
  /\ (exists first : string,
        missing two_missing_env first = true
        /\ GOOGLE_ADS_CONFIG two_missing_env initial_state =
           (Stopped,
            with_ui initial_state
              [Msg Error ("Missing required environment variable: " +:+ first)])).
Proof.
  assert (Hfull : Forall (fun key => missing full_env key = false) REQUIRED_KEYS)
    by (repeat constructor).
  assert (Hin : "CLIENT_ID" ∈ REQUIRED_KEYS) by (unfold REQUIRED_KEYS; set_solver).
  assert (Hmiss : missing two_missing_env "CLIENT_ID" = true) by reflexivity.
  split; [exact Hfull |]. split.
  { destruct (proj1 (credential_loader full_env initial_state) Hfull)
      as (config & Hrun & Hdt & _ & _ & _ & Hlc & _).
    exists config. split; [exact Hrun |].
    split; [by injection Hdt | by injection Hlc]. }
  split; [exact Hin |]. split; [exact Hmiss |].
  destruct (proj2 (credential_loader two_missing_env initial_state) "CLIENT_ID" Hin Hmiss)
    as (first & _ & Hfirst & Hrun & _).
  exists first. split; [exact Hfirst | exact Hrun].
Defined.

(** C2 as stated fails: with DEVELOPER_TOKEN and CLIENT_ID both missing the
    loader stops after a message naming DEVELOPER_TOKEN, and no message
    names CLIENT_ID. *)
Lemma credential_loader_names_first_only :
  missing two_missing_env "CLIENT_ID" = true
  /\ GOOGLE_ADS_CONFIG two_missing_env initial_state =
     (Stopped,
      with_ui initial_state
        [Msg Error "Missing required environment variable: DEVELOPER_TOKEN"])
  /\ Msg Error "Missing required environment variable: CLIENT_ID"
     ∉ ui (snd (GOOGLE_ADS_CONFIG two_missing_env initial_state)).
Proof.
  split; [reflexivity |]. split; [reflexivity |].
  intros Hin. apply list_elem_of_singleton in Hin. discriminate Hin.
Qed.

(** ** The read operations *)

Lemma with_calls_app (s : state) (made made' : list ApiCall) :
  with_calls (with_calls s made) made' = with_calls s (made ++ made').
Proof. unfold with_calls. simpl. by rewrite <- app_assoc. Qed.

Lemma for_rows_ends {A : Type} (rows : list GoogleAdsRow) (body : GoogleAdsRow -> A)
    (acc : list A) (s : state) :
  for_rows rows None body acc s = (Ok (acc ++ map body rows), s).
Proof.
  revert acc. induction rows as [| row rows IH]; intros acc; simpl.
  - by rewrite app_nil_r.
  - rewrite IH. by rewrite <- app_assoc.
Qed.

Lemma for_rows_raises {A : Type} (rows : list GoogleAdsRow) (body : GoogleAdsRow -> A)
    (acc : list A) (e : Exn) (s : state) :
  for_rows rows (Some e) body acc s = (Raised e, s).
Proof. revert acc. induction rows as [| row rows IH]; intros acc; simpl; auto. Qed.

Lemma read_handler_returns {A : Type} (e : Exn) (s : state) :
  exists text : string,
    @read_handler A e s = (Ok [], with_ui s [Msg Error text])
    /\ (text = "Google Ads API error: " +:+ exn_str e
        \/ text = "Unexpected error: " +:+ exn_str e).
Proof.
  unfold read_handler. destruct (is_google_ads_exception e); eexists; split; eauto.
Qed.

(** What a read operation does once [get_service] has returned: the rows
    mapped to records when the search and the iteration go through, and
    otherwise an empty list after one error message carrying the
    exception's text. *)
Section ReadBody.

Variable api : Api.
Variables (A : Type) (record : GoogleAdsRow -> A) (customer_id query : string).

Lemma read_body_success (s : state) (rows : list GoogleAdsRow) :
  search api (calls s) customer_id query = inr (rows, None) ->
  read_body api A record customer_id query s = (Ok (map record rows), with_calls s [CallSearch customer_id query]).
Proof.
  intros Hsearch. unfold read_body, try_except, bind, call_search, record_call.
  simpl. rewrite Hsearch. simpl. by rewrite for_rows_ends.
Qed.

Lemma read_body_failure (s : state) (e : Exn) :
  search api (calls s) customer_id query = inl e
  \/ (exists rows, search api (calls s) customer_id query = inr (rows, Some e)) ->
  exists text : string,
    read_body api A record customer_id query s
    = (Ok [], with_ui (with_calls s [CallSearch customer_id query]) [Msg Error text])
    /\ (text = "Google Ads API error: " +:+ exn_str e
        \/ text = "Unexpected error: " +:+ exn_str e).
Proof.
  intros Hsearch. unfold read_body, try_except, bind, call_search, record_call. simpl.
  destruct Hsearch as [-> | [rows ->]]; simpl.
  - apply read_handler_returns.
  - rewrite for_rows_raises. apply read_handler_returns.
Qed.

(** The body of a read operation never raises and never stops the script. *)
Lemma read_body_returns (s : state) :
  exists (result : list A) (s' : state),
    read_body api A record customer_id query s = (Ok result, s').
Proof.
  destruct (search api (calls s) customer_id query) as [e | [rows [e |]]] eqn:Hsearch.
  - destruct (read_body_failure s e) as (text & -> & _); eauto.
  - destruct (read_body_failure s e) as (text & -> & _); eauto.
  - rewrite (read_body_success s rows Hsearch). eauto.
Qed.

End ReadBody.

Lemma read_operation_unfold (api : Api) (A : Type) (record : GoogleAdsRow -> A)
    (client : GoogleAdsClient) (customer_id query : string) (s : state) :
  (call_get_service api client "GoogleAdsService" ;;;
   read_body api A record customer_id query)%script s =
  match get_service api (calls s) "GoogleAdsService" with
  | Some e => (Raised e, with_calls s [CallGetService "GoogleAdsService"])
  | None =>
      read_body api A record customer_id query
                (with_calls s [CallGetService "GoogleAdsService"])
  end.
Proof.
  unfold bind, call_get_service, record_call. simpl.
  destruct (get_service api (calls s) "GoogleAdsService"); reflexivity.
Qed.

Lemma get_campaign_performance_unfold (api : Api) (client : GoogleAdsClient)
    (customer_id : string) (s : state) :
  get_campaign_performance api client customer_id s =
  match get_service api (calls s) "GoogleAdsService" with
  | Some e => (Raised e, with_calls s [CallGetService "GoogleAdsService"])
  | None =>
      read_body api _ campaign_record customer_id campaign_query
                (with_calls s [CallGetService "GoogleAdsService"])
  end.
Proof. apply read_operation_unfold. Qed.

Lemma list_accounts_under_mcc_unfold (api : Api) (client : GoogleAdsClient)
    (mcc_customer_id : string) (s : state) :
  list_accounts_under_mcc api client mcc_customer_id s =
  match get_service api (calls s) "GoogleAdsService" with
  | Some e => (Raised e, with_calls s [CallGetService "GoogleAdsService"])
  | None =>
      read_body api _ account_record mcc_customer_id accounts_query
                (with_calls s [CallGetService "GoogleAdsService"])
  end.
Proof. apply read_operation_unfold. Qed.

(** When obtaining the service goes through, both read operations return a
    list whatever the search does. *)
Lemma read_operations_return (api : Api) (client : GoogleAdsClient)
    (customer_id : string) (s : state) :
  get_service api (calls s) "GoogleAdsService" = None ->
  (exists result s', list_accounts_under_mcc api client customer_id s = (Ok result, s'))
  /\ (exists result s', get_campaign_performance api client customer_id s = (Ok result, s')).
Proof.
  intros Hservice.
  rewrite list_accounts_under_mcc_unfold, get_campaign_performance_unfold, Hservice.
  split; apply read_body_returns.
Qed.

(** A failing search, or a response that raises while it is iterated, gives
    an empty list and one error message with the exception's text. *)
Lemma read_operations_catch (api : Api) (client : GoogleAdsClient)
    (customer_id : string) (s : state) (e : Exn) :
  get_service api (calls s) "GoogleAdsService" = None ->
  (forall query,
     search api (calls s ++ [CallGetService "GoogleAdsService"]) customer_id query = inl e
     \/ exists rows,
          search api (calls s ++ [CallGetService "GoogleAdsService"]) customer_id query
          = inr (rows, Some e)) ->
  (exists text s',
     list_accounts_under_mcc api client customer_id s = (Ok [], s')
     /\ ui s' = ui s ++ [Msg Error text]
     /\ (text = "Google Ads API error: " +:+ exn_str e
         \/ text = "Unexpected error: " +:+ exn_str e))
  /\ (exists text s',
        get_campaign_performance api client customer_id s = (Ok [], s')
        /\ ui s' = ui s ++ [Msg Error text]
        /\ (text = "Google Ads API error: " +:+ exn_str e
            \/ text = "Unexpected error: " +:+ exn_str e)).
Proof.
  intros Hservice Hsearch.
  rewrite list_accounts_under_mcc_unfold, get_campaign_performance_unfold, Hservice.
  split.
  - destruct (read_body_failure api _ account_record customer_id accounts_query
                (with_calls s [CallGetService "GoogleAdsService"]) e (Hsearch _))
      as (text & -> & Htext).
    eexists text, _. split; [reflexivity |]. split; [reflexivity | exact Htext].
  - destruct (read_body_failure api _ campaign_record customer_id campaign_query
                (with_calls s [CallGetService "GoogleAdsService"]) e (Hsearch _))
      as (text & -> & Htext).
    eexists text, _. split; [reflexivity |]. split; [reflexivity | exact Htext].
Qed.

(** C1: with a client whose [get_service] raises for the Google Ads service,
    both read operations raise that exception to their caller: nothing is
    shown and no list is returned. *)
Theorem read_operations_raise_on_get_service :
  list_accounts_under_mcc service_down_api (mkClient 0) "1234567890" initial_state
  = (Raised (mkExn OtherException "service unavailable"),
     with_calls initial_state [CallGetService "GoogleAdsService"])
  /\ get_campaign_performance service_down_api (mkClient 0) "5756290882" initial_state
     = (Raised (mkExn OtherException "service unavailable"),
        with_calls initial_state [CallGetService "GoogleAdsService"])
  /\ ui (with_calls initial_state [CallGetService "GoogleAdsService"]) = [].
Proof. repeat split. Qed.

(** The read operations raise exactly when [get_service] does. *)
Lemma read_operations_raise_iff (api : Api) (client : GoogleAdsClient)
    (customer_id : string) (s : state) (e : Exn) :
  (exists s', get_campaign_performance api client customer_id s = (Raised e, s'))
  <-> get_service api (calls s) "GoogleAdsService" = Some e.
Proof.
  rewrite get_campaign_performance_unfold.
  destruct (get_service api (calls s) "GoogleAdsService") as [e' |] eqn:Hservice.
  - split; [intros [s' Heq]; congruence | intros [= ->]; eauto].
  - destruct (read_body_returns api _ campaign_record customer_id campaign_query
                (with_calls s [CallGetService "GoogleAdsService"])) as (r & s1 & ->).
    split; [intros [s' Heq]; discriminate | discriminate].
Qed.

Lemma campaign_record_fields (row : GoogleAdsRow) :
  dom (campaign_record row)
  = ({["campaign.id"; "campaign.name"; "metrics.impressions"; "metrics.clicks";
       "metrics.cost_micros"]} : gset string)
  /\ campaign_record row !! "campaign.id" = Some (campaign_id row)
  /\ campaign_record row !! "campaign.name" = Some (campaign_name row)
  /\ campaign_record row !! "metrics.impressions" = Some (metrics_impressions row)
  /\ campaign_record row !! "metrics.clicks" = Some (metrics_clicks row)
  /\ campaign_record row !! "metrics.cost_micros" = Some (metrics_cost_micros row).
Proof.
  unfold campaign_record. split.
  - rewrite !dom_insert_L, dom_empty_L. set_solver.
  - repeat split; by simplify_map_eq.
Qed.

(** C8: when obtaining the service and the search go through,
    [get_campaign_performance] makes one search, for the given account and
    with the query whose only condition is [campaign.status = 'ENABLED'],
    and returns, in order, one record per response row whose keys are
    exactly the campaign id, the campaign name, the impressions, the clicks
    and the cost micros of that row. *)
Theorem get_campaign_performance_success (api : Api) (client : GoogleAdsClient)
    (customer_id : string) (s : state) (rows : list GoogleAdsRow) :
  get_service api (calls s) "GoogleAdsService" = None ->
  search api (calls s ++ [CallGetService "GoogleAdsService"]) customer_id campaign_query
  = inr (rows, None) ->
  get_campaign_performance api client customer_id s
  = (Ok (map campaign_record rows),
     with_calls s [CallGetService "GoogleAdsService";
                   CallSearch customer_id campaign_query])
  /\ length (map campaign_record rows) = length rows
  /\ Forall2 (fun row record =>
                dom record
                = ({["campaign.id"; "campaign.name"; "metrics.impressions";
                     "metrics.clicks"; "metrics.cost_micros"]} : gset string)
                /\ record !! "campaign.id" = Some (campaign_id row)
                /\ record !! "campaign.name" = Some (campaign_name row)
                /\ record !! "metrics.impressions" = Some (metrics_impressions row)
                /\ record !! "metrics.clicks" = Some (metrics_clicks row)
                /\ record !! "metrics.cost_micros" = Some (metrics_cost_micros row))
             rows (map campaign_record rows)
  /\ occurs "FROM campaign" campaign_query = true
  /\ (exists position : nat,
        String.index 0 "WHERE campaign.status = 'ENABLED'" campaign_query
        = Some position
        /\ blank (String.substring (position + 33) (String.length campaign_query)
                                   campaign_query) = true).
Proof.
  intros Hservice Hsearch. split; [| split; [| split; [| split]]].
  - rewrite get_campaign_performance_unfold, Hservice.
    rewrite (read_body_success api _ campaign_record customer_id campaign_query
               (with_calls s [CallGetService "GoogleAdsService"]) rows Hsearch).
    by rewrite with_calls_app.
  - by rewrite length_map.
  - clear. induction rows as [| row rows IH]; constructor; [| exact IH].
    apply campaign_record_fields.
  - reflexivity.
  - vm_compute. eexists. split; reflexivity.
Qed.

Lemma get_campaign_performance_success_witness :
  get_service healthy_api (calls initial_state) "GoogleAdsService" = None
  /\ search healthy_api (calls initial_state ++ [CallGetService "GoogleAdsService"])
            "5756290882" campaign_query = inr ([sample_row], None)
  /\ get_campaign_performance healthy_api (mkClient 0) "5756290882" initial_state
     = (Ok (map campaign_record [sample_row]),
        with_calls initial_state [CallGetService "GoogleAdsService";
                                  CallSearch "5756290882" campaign_query]).
Proof.
  split; [reflexivity |]. split; [reflexivity |].
  exact (proj1 (get_campaign_performance_success healthy_api (mkClient 0) "5756290882"
                  initial_state [sample_row] eq_refl eq_refl)).
Defined.

(** ** The connectivity self-test *)

Lemma test_google_ads_connection_cases (api : Api) (client : GoogleAdsClient)
    (s : state) :
  exists made : list ApiCall,
    test_google_ads_connection api client s =
    match probe api (calls s) with
    | inr (_ :: _) =>
        (Ok true,
         with_ui (with_calls s made) [Msg Success "Google Ads API connection successful!"])
    | inr [] =>
        (Ok false,
         with_ui (with_calls s made)
                 [Msg Warning "Connected, but no accessible customers found."])
    | inl e =>
        (Ok false,
         with_ui (with_calls s made)
                 [Msg Error ("Google Ads API connection failed: " +:+ exn_str e)])
    end.
Proof.
  unfold test_google_ads_connection, probe, try_except, bind, call_get_service,
    call_list_accessible_customers, record_call. simpl.
  destruct (get_service api (calls s) "CustomerService") as [e |].
  - by exists [CallGetService "CustomerService"].
  - exists [CallGetService "CustomerService"; CallListAccessibleCustomers].
    destruct (list_accessible_customers api _) as [e | [| name names]]; simpl;
      unfold with_ui, with_calls; simpl; by rewrite <- app_assoc.
Qed.

(** C3 (amended): the connectivity self-test always returns; it returns
    success exactly when the probe yields a non-empty result, after a success
    message; an empty result gives a warning message and failure; an
    exception raised by the probe is caught and gives failure after an
    error-level message (shown with [st.error], not [st.warning]) carrying
    the exception's text; in no case does the script stop, and the main
    logic goes on to the campaign read whatever the result. *)
Theorem connection_test (api : Api) (client : GoogleAdsClient) (s : state) :
  exists (verified : bool) (s' : state),
    test_google_ads_connection api client s = (Ok verified, s')
    /\ cache s' = cache s /\ constructed s' = constructed s
    /\ (verified = true <-> exists names, probe api (calls s) = inr names /\ names <> [])
    /\ (verified = true ->
        ui s' = ui s ++ [Msg Success "Google Ads API connection successful!"])
    /\ (probe api (calls s) = inr [] ->
        verified = false
        /\ ui s' = ui s ++ [Msg Warning "Connected, but no accessible customers found."])
    /\ (forall e : Exn,
          probe api (calls s) = inl e ->
          verified = false
          /\ ui s' = ui s ++ [Msg Error ("Google Ads API connection failed: "
                                         +:+ exn_str e)])
    /\ (forall (config : Config) (customer_id : string) (s0 : state),
          get_google_ads_client api config s0 = (Ok client, s) ->
          main_logic api config customer_id s0
          = get_campaign_performance api client customer_id s').
Proof.
  destruct (test_google_ads_connection_cases api client s) as [made Hrun].
  assert (Hverdict : forall verified s',
             test_google_ads_connection api client s = (Ok verified, s') ->
             forall config customer_id s0,
               get_google_ads_client api config s0 = (Ok client, s) ->
               main_logic api config customer_id s0
               = get_campaign_performance api client customer_id s').
  { intros verified s' Htest config customer_id s0 Hclient.
    unfold main_logic, bind. by rewrite Hclient, Htest. }
  destruct (probe api (calls s)) as [e | [| name names]] eqn:Hprobe;
    eexists _, _; (split; [exact Hrun |]);
    (split; [reflexivity |]); (split; [reflexivity |]).
  - split; [split; [discriminate | intros (names & [=] & _)] |].
    split; [discriminate |]. split; [discriminate |].
    split; [intros e' [= <-]; done | by apply Hverdict with false].
  - split; [split; [discriminate | intros (names & [= <-] & Hne); done] |].
    split; [discriminate |]. split; [done |].
    split; [discriminate | by apply Hverdict with false].
  - split; [split; [intros _; by exists (name :: names) | done] |].
    split; [done |]. split; [discriminate |].
    split; [discriminate | by apply Hverdict with true].
Qed.

Lemma connection_test_witness :
  probe no_customers_api (calls initial_state) = inr []
  /\ exists (verified : bool) (s' : state),
       test_google_ads_connection no_customers_api (mkClient 0) initial_state
       = (Ok verified, s')
       /\ verified = false
       /\ ui s' = ui initial_state
                  ++ [Msg Warning "Connected, but no accessible customers found."].
Proof.
  split; [reflexivity |].
  destruct (connection_test no_customers_api (mkClient 0) initial_state)
    as (verified & s' & Hrun & _ & _ & _ & _ & Hempty & _).
  exists verified, s'. split; [exact Hrun |]. exact (Hempty eq_refl).
Defined.

(** C3 as stated fails: when the probe raises, what is shown is an
    error-level message; no warning is shown. *)
Lemma connection_test_exception_not_warning :
  test_google_ads_connection probe_down_api (mkClient 0) initial_state
  = (Ok false,
     with_ui (with_calls initial_state
                [CallGetService "CustomerService"; CallListAccessibleCustomers])
             [Msg Error "Google Ads API connection failed: permission denied"])
  /\ forall text : string,
       Msg Warning text
       ∉ ui (snd (test_google_ads_connection probe_down_api (mkClient 0) initial_state)).
Proof.
  split; [reflexivity |]. intros text Hin.
  apply list_elem_of_singleton in Hin. discriminate Hin.
Qed.

(** ** The memoized client *)

Lemma frame_ret {A : Type} (a : A) : frame (ret a).
Proof. by intros s. Qed.

Lemma frame_raise {A : Type} (e : Exn) : frame (@raise A e).
Proof. by intros s. Qed.

Lemma frame_lift {A : Type} (x : pyres A) : frame (lift x).
Proof. destruct x; [apply frame_raise | apply frame_ret]. Qed.

Lemma frame_stop {A : Type} : frame (@st_stop A).
Proof. by intros s. Qed.

Lemma frame_show (ev : UiEvent) : frame (show ev).
Proof. by intros s. Qed.

Lemma frame_bind {A B : Type} (m : M A) (f : A -> M B) :
  frame m -> (forall a, frame (f a)) -> frame (bind m f).
Proof.
  intros Hm Hf s. unfold bind. specialize (Hm s).
  destruct (m s) as [[a | | e] s1]; simpl in *; [| done | done].
  destruct Hm as [Hc0 Hn0]. destruct (Hf a s1) as [Hc Hn]. split; congruence.
Qed.

Lemma frame_try_except {A : Type} (body : M A) (handler : Exn -> M A) :
  frame body -> (forall e, frame (handler e)) -> frame (try_except body handler).
Proof.
  intros Hbody Hhandler s. unfold try_except. specialize (Hbody s).
  destruct (body s) as [[a | | e] s1]; simpl in *; [done | done |].
  destruct Hbody as [Hc0 Hn0]. destruct (Hhandler e s1) as [Hc Hn]. split; congruence.
Qed.

Lemma frame_call_get_service (api : Api) (client : GoogleAdsClient) (name : string) :
  frame (call_get_service api client name).
Proof.
  intros s. unfold call_get_service. simpl.
  by destruct (get_service api (calls s) name).
Qed.

Lemma frame_call_list_accessible_customers (api : Api) :
  frame (call_list_accessible_customers api).
Proof.
  intros s. unfold call_list_accessible_customers. simpl.
  by destruct (list_accessible_customers api (calls s)).
Qed.

Lemma frame_call_search (api : Api) (customer_id query : string) :
  frame (call_search api customer_id query).
Proof.
  intros s. unfold call_search. simpl.
  by destruct (search api (calls s) customer_id query).
Qed.

Lemma frame_for_rows {A : Type} (rows : list GoogleAdsRow) (tail : option Exn)
    (body : GoogleAdsRow -> A) (acc : list A) :
  frame (for_rows rows tail body acc).
Proof.
  revert acc. induction rows as [| row rows IH]; intros acc; simpl; [| apply IH].
  destruct tail; [apply frame_raise | apply frame_ret].
Qed.

Lemma frame_read_handler {A : Type} (e : Exn) : frame (@read_handler A e).
Proof.
  unfold read_handler. destruct (is_google_ads_exception e);
    (apply frame_bind; [apply frame_show | intros _; apply frame_ret]).
Qed.

Lemma frame_get_env_var (env : gmap string string) (key : string) :
  frame (get_env_var env key).
Proof.
  unfold get_env_var.
  destruct (env !! key) as [value |]; [destruct (String.eqb value "") |];
    try apply frame_ret;
    (apply frame_bind; [apply frame_show | intros _; apply frame_stop]).
Qed.

Create HintDb frames.
#[local] Hint Resolve frame_ret frame_raise frame_lift frame_stop frame_show
  frame_call_get_service frame_call_list_accessible_customers frame_call_search
  frame_for_rows frame_read_handler frame_get_env_var : frames.
#[local] Hint Extern 2 (frame (bind _ _)) => apply frame_bind; [| intros ?] : frames.
#[local] Hint Extern 2 (frame (try_except _ _)) =>
  apply frame_try_except; [| intros ?] : frames.

Lemma frame_config (env : gmap string string) : frame (GOOGLE_ADS_CONFIG env).
Proof. unfold GOOGLE_ADS_CONFIG. auto 20 with frames. Qed.

Lemma frame_test (api : Api) (client : GoogleAdsClient) :
  frame (test_google_ads_connection api client).
Proof.
  unfold test_google_ads_connection, st_success, st_warning, st_error.
  apply frame_try_except; [| auto with frames].
  apply frame_bind; [auto with frames | intros _].
  apply frame_bind; [auto with frames | intros names].
  destruct names; auto with frames.
Qed.

Lemma frame_get_campaign_performance (api : Api) (client : GoogleAdsClient)
    (customer_id : string) :
  frame (get_campaign_performance api client customer_id).
Proof. unfold get_campaign_performance. auto 10 with frames. Qed.

Lemma frame_dataframe (api : Api) (table : list (gmap string cell)) :
  frame (st_dataframe api table).
Proof.
  unfold st_dataframe. destruct (dataframe_error api table);
    [apply frame_raise | apply frame_show].
Qed.

Lemma frame_render (api : Api) (rows : list (gmap string pyval)) :
  frame (render api rows).
Proof.
  unfold render, st_info, st_metric.
  destruct rows; auto 20 using frame_dataframe with frames.
Qed.

Lemma frame_preserves {A : Type} (m : M A) : frame m -> preserves m.
Proof.
  intros Hm s Hinv. destruct (Hm s) as [Hc Hn].
  unfold cache_inv in *. by rewrite Hc, Hn.
Qed.

Lemma preserves_bind {A B : Type} (m : M A) (f : A -> M B) :
  preserves m -> (forall a, preserves (f a)) -> preserves (bind m f).
Proof.
  intros Hm Hf s Hinv. unfold bind. specialize (Hm s Hinv).
  destruct (m s) as [[a | | e] s1]; simpl in *; [| done | done].
  by apply Hf.
Qed.

Lemma get_client_cached (api : Api) (config : Config) (s : state)
    (client : GoogleAdsClient) :
  cache s = Some client -> get_google_ads_client api config s = (Ok client, s).
Proof. intros Hc. unfold get_google_ads_client, cache_resource. by rewrite Hc. Qed.

(** With an empty slot the client is built once and cached, or the script
    stops after an error message and nothing is cached. *)
Lemma get_client_uncached (api : Api) (config : Config) (s : state) :
  cache s = None ->
  get_google_ads_client api config s =
  match load_from_dict api (calls s) config with
  | None =>
      (Ok (mkClient (constructed s)),
       {| ui := ui s; calls := calls s ++ [CallLoadFromDict];
          cache := Some (mkClient (constructed s));
          constructed := S (constructed s) |})
  | Some e =>
      (Stopped,
       with_ui (with_calls s [CallLoadFromDict])
               [Msg Error ("Failed to load Google Ads client: " +:+ exn_str e)])
  end.
Proof.
  intros Hc.
  unfold get_google_ads_client, cache_resource, try_except, call_load_from_dict.
  rewrite Hc. destruct (load_from_dict api (calls s) config); simpl; [| done].
  unfold with_ui, with_calls. simpl. by rewrite Hc.
Qed.

Lemma get_client_fills (api : Api) (config : Config) (s s1 : state)
    (client : GoogleAdsClient) :
  get_google_ads_client api config s = (Ok client, s1) -> cache s1 = Some client.
Proof.
  destruct (cache s) as [c |] eqn:Hc.
  - rewrite (get_client_cached api config s c Hc). by intros [= <- <-].
  - rewrite (get_client_uncached api config s Hc).
    destruct (load_from_dict api (calls s) config); [discriminate |].
    by intros [= <- <-].
Qed.

Lemma preserves_get_client (api : Api) (config : Config) :
  preserves (get_google_ads_client api config).
Proof.
  intros s Hinv. unfold cache_inv in Hinv.
  destruct (cache s) as [c |] eqn:Hc.
  - rewrite (get_client_cached api config s c Hc). unfold cache_inv. simpl.
    by rewrite Hc.
  - rewrite (get_client_uncached api config s Hc).
    destruct (load_from_dict api (calls s) config); unfold cache_inv; simpl.
    + by rewrite Hc.
    + by rewrite Hinv.
Qed.

Lemma preserves_script (api : Api) (env : gmap string string) (country : string) :
  preserves (script api env country).
Proof.
  unfold script, main_logic.
  apply preserves_bind; [apply frame_preserves, frame_config | intros config].
  apply preserves_bind; [apply frame_preserves, frame_lift | intros customer_id].
  apply preserves_bind; [| intros rows; apply frame_preserves, frame_render].
  apply preserves_bind; [apply preserves_get_client | intros client].
  apply frame_preserves.
  apply frame_bind; [apply frame_test | intros _; apply frame_get_campaign_performance].
Qed.

Lemma reruns_inv (api : Api) (env : gmap string string) (countries : list string)
    (s : state) :
  cache_inv s -> cache_inv (reruns api env countries s).
Proof.
  revert s. unfold reruns.
  induction countries as [| country countries IH]; intros s Hinv; simpl; [done |].
  apply IH. by apply preserves_script.
Qed.

Lemma cache_inv_initial : cache_inv initial_state.
Proof. reflexivity. Qed.

Lemma cache_inv_constructed (s : state) : cache_inv s -> (constructed s <= 1)%nat.
Proof.
  unfold cache_inv. destruct (cache s); [intros [-> _] | intros ->]; lia.
Qed.

(** C4: client construction is memoized.  Once a call has returned a client,
    the next call returns the same client and leaves the state as it is, so
    nothing is built again; over any number of runs of the script in one
    process at most one client is ever built, and every call that returns
    hands out that one client. *)
Theorem client_memoized (api : Api) :
  (forall (config config' : Config) (s s1 : state) (client : GoogleAdsClient),
     get_google_ads_client api config s = (Ok client, s1) ->
     get_google_ads_client api config' s1 = (Ok client, s1))
  /\ (forall (env : gmap string string) (countries : list string),
        (constructed (reruns api env countries initial_state) <= 1)%nat)
  /\ (forall (env : gmap string string) (countries : list string) (config : Config)
             (client : GoogleAdsClient) (s' : state),
        get_google_ads_client api config (reruns api env countries initial_state)
        = (Ok client, s') ->
        client = mkClient 0 /\ constructed s' = 1%nat).
Proof.
  split; [| split].
  - intros config config' s s1 client Hrun.
    apply get_client_cached. by apply (get_client_fills api config s).
  - intros env countries.
    apply cache_inv_constructed, reruns_inv, cache_inv_initial.
  - intros env countries config client s' Hrun.
    pose proof (reruns_inv api env countries _ cache_inv_initial) as Hinv.
    pose proof (preserves_get_client api config _ Hinv) as Hinv'.
    rewrite Hrun in Hinv'. simpl in Hinv'.
    apply get_client_fills in Hrun. unfold cache_inv in Hinv'.
    rewrite Hrun in Hinv'. by destruct Hinv' as [-> ->].
Qed.

Lemma client_memoized_witness :
  get_google_ads_client healthy_api sample_config initial_state
  = (Ok (mkClient 0),
     {| ui := []; calls := [CallLoadFromDict]; cache := Some (mkClient 0);
        constructed := 1 |})
  /\ get_google_ads_client healthy_api sample_config
       {| ui := []; calls := [CallLoadFromDict]; cache := Some (mkClient 0);
          constructed := 1 |}
     = (Ok (mkClient 0),
        {| ui := []; calls := [CallLoadFromDict]; cache := Some (mkClient 0);
           constructed := 1 |}).
Proof.
  assert (Hfirst : get_google_ads_client healthy_api sample_config initial_state
                   = (Ok (mkClient 0),
                      {| ui := []; calls := [CallLoadFromDict];
                         cache := Some (mkClient 0); constructed := 1 |}))
    by reflexivity.
  split; [exact Hfirst |].
  exact (proj1 (client_memoized healthy_api) sample_config sample_config
               initial_state _ (mkClient 0) Hfirst).
Defined.

(** ** Read operations: further properties *)

Lemma read_handler_text {A : Type} (e : Exn) (s : state) :
  @read_handler A e s = (Ok [], with_ui s [Msg Error (read_error_text e)]).
Proof.
  unfold read_handler, read_error_text. by destruct (is_google_ads_exception e).
Qed.

Lemma read_body_failure_text (api : Api) (A : Type) (record : GoogleAdsRow -> A)
    (customer_id query : string) (s : state) (e : Exn) :
  search api (calls s) customer_id query = inl e
  \/ (exists rows, search api (calls s) customer_id query = inr (rows, Some e)) ->
  read_body api A record customer_id query s
  = (Ok [], with_ui (with_calls s [CallSearch customer_id query])
                    [Msg Error (read_error_text e)]).
Proof.
  intros Hsearch. unfold read_body, try_except, bind, call_search, record_call. simpl.
  destruct Hsearch as [-> | [rows ->]]; simpl.
  - apply read_handler_text.
  - rewrite for_rows_raises. apply read_handler_text.
Qed.

Lemma account_record_fields (row : GoogleAdsRow) :
  dom (account_record row) = ({["id"; "name"]} : gset string)
  /\ account_record row !! "id" = Some (customer_client_client_customer row)
  /\ account_record row !! "name" = Some (customer_client_descriptive_name row).
Proof.
  unfold account_record. split.
  - rewrite !dom_insert_L, dom_empty_L. set_solver.
  - split; by simplify_map_eq.
Qed.

(** X1: when obtaining the service and the search go through,
    [list_accounts_under_mcc] makes one search, for the given manager account
    and with the query whose only condition is [customer_client.level = 1],
    shows nothing, and returns in order one record per response row whose
    keys are exactly ["id"] and ["name"], holding the row's client customer
    and descriptive name. *)
Theorem list_accounts_under_mcc_success (api : Api) (client : GoogleAdsClient)
    (mcc_customer_id : string) (s : state) (rows : list GoogleAdsRow) :
  get_service api (calls s) "GoogleAdsService" = None ->
  search api (calls s ++ [CallGetService "GoogleAdsService"]) mcc_customer_id
         accounts_query = inr (rows, None) ->
  list_accounts_under_mcc api client mcc_customer_id s
  = (Ok (map account_record rows),
     with_calls s [CallGetService "GoogleAdsService";
                   CallSearch mcc_customer_id accounts_query])
  /\ Forall2 (fun row record =>
                dom record = ({["id"; "name"]} : gset string)
                /\ record !! "id" = Some (customer_client_client_customer row)
                /\ record !! "name" = Some (customer_client_descriptive_name row))
             rows (map account_record rows)
  /\ occurs "FROM customer_client" accounts_query = true
  /\ (exists position : nat,
        String.index 0 "WHERE customer_client.level = 1" accounts_query
        = Some position
        /\ blank (String.substring (position + 31) (String.length accounts_query)
                                   accounts_query) = true).
Proof.
  intros Hservice Hsearch. split; [| split; [| split]].
  - rewrite list_accounts_under_mcc_unfold, Hservice.
    rewrite (read_body_success api _ account_record mcc_customer_id accounts_query
               (with_calls s [CallGetService "GoogleAdsService"]) rows Hsearch).
    by rewrite with_calls_app.
  - clear. induction rows as [| row rows IH]; constructor; [| exact IH].
    apply account_record_fields.
  - reflexivity.
  - vm_compute. eexists. split; reflexivity.
Qed.

Lemma list_accounts_under_mcc_success_witness :
  get_service healthy_api (calls initial_state) "GoogleAdsService" = None
  /\ search healthy_api (calls initial_state ++ [CallGetService "GoogleAdsService"])
            "1234567890" accounts_query = inr ([sample_row], None)
  /\ list_accounts_under_mcc healthy_api (mkClient 0) "1234567890" initial_state
     = (Ok (map account_record [sample_row]),
        with_calls initial_state [CallGetService "GoogleAdsService";
                                  CallSearch "1234567890" accounts_query]).
Proof.
  split; [reflexivity |]. split; [reflexivity |].
  exact (proj1 (list_accounts_under_mcc_success healthy_api (mkClient 0) "1234567890"
                  initial_state [sample_row] eq_refl eq_refl)).
Defined.

(** X2: once [get_service] has returned, a read operation whose own search
    raises, or whose response raises while it is iterated, returns the empty
    list after exactly one error message: the exception's text after
    "Google Ads API error: " for a [GoogleAdsException] and after
    "Unexpected error: " for any other exception.  Rows the response yielded
    before it raised are dropped.  Each operation depends on the search for
    its own query only. *)
Theorem read_failure_reported (api : Api) (client : GoogleAdsClient)
    (customer_id : string) (s : state) (e : Exn) :
  get_service api (calls s) "GoogleAdsService" = None ->
  ((search api (calls s ++ [CallGetService "GoogleAdsService"]) customer_id
           accounts_query = inl e
    \/ exists rows,
         search api (calls s ++ [CallGetService "GoogleAdsService"]) customer_id
                accounts_query = inr (rows, Some e)) ->
   list_accounts_under_mcc api client customer_id s
   = (Ok [], with_ui (with_calls s [CallGetService "GoogleAdsService";
                                    CallSearch customer_id accounts_query])
                     [Msg Error (read_error_text e)]))
  /\ ((search api (calls s ++ [CallGetService "GoogleAdsService"]) customer_id
              campaign_query = inl e
       \/ exists rows,
            search api (calls s ++ [CallGetService "GoogleAdsService"]) customer_id
                   campaign_query = inr (rows, Some e)) ->
      get_campaign_performance api client customer_id s
      = (Ok [], with_ui (with_calls s [CallGetService "GoogleAdsService";
                                       CallSearch customer_id campaign_query])
                        [Msg Error (read_error_text e)]))
  /\ (exn_class e = GoogleAdsException ->
      read_error_text e = "Google Ads API error: " +:+ exn_str e)
  /\ (exn_class e <> GoogleAdsException ->
      read_error_text e = "Unexpected error: " +:+ exn_str e).
Proof.
  intros Hservice.
  rewrite list_accounts_under_mcc_unfold, get_campaign_performance_unfold, Hservice.
  split; [| split; [| split]].
  - intros Hsearch.
    rewrite (read_body_failure_text api _ account_record customer_id accounts_query
               (with_calls s [CallGetService "GoogleAdsService"]) e Hsearch).
    by rewrite with_calls_app.
  - intros Hsearch.
    rewrite (read_body_failure_text api _ campaign_record customer_id campaign_query
               (with_calls s [CallGetService "GoogleAdsService"]) e Hsearch).
    by rewrite with_calls_app.
  - unfold read_error_text, is_google_ads_exception. by intros ->.
  - unfold read_error_text, is_google_ads_exception.
    by destruct (exn_class e).
Qed.

Lemma read_failure_reported_witness :
  get_service campaigns_down_api (calls initial_state) "GoogleAdsService" = None
  /\ search campaigns_down_api
            (calls initial_state ++ [CallGetService "GoogleAdsService"])
            "5756290882" accounts_query
     = inr ([sample_row], None)
  /\ get_campaign_performance campaigns_down_api (mkClient 0) "5756290882" initial_state
     = (Ok [], with_ui (with_calls initial_state
                          [CallGetService "GoogleAdsService";
                           CallSearch "5756290882" campaign_query])
                       [Msg Error (read_error_text
                                     (mkExn GoogleAdsException "quota exceeded"))])
  /\ read_error_text (mkExn GoogleAdsException "quota exceeded")
     = "Google Ads API error: quota exceeded".
Proof.
  assert (Hs : get_service campaigns_down_api (calls initial_state) "GoogleAdsService"
               = None) by reflexivity.
  assert (Hq : search campaigns_down_api
                      (calls initial_state ++ [CallGetService "GoogleAdsService"])
                      "5756290882" campaign_query
               = inl (mkExn GoogleAdsException "quota exceeded")
               \/ exists rows,
                    search campaigns_down_api
                           (calls initial_state ++ [CallGetService "GoogleAdsService"])
                           "5756290882" campaign_query
                    = inr (rows, Some (mkExn GoogleAdsException "quota exceeded")))
    by (right; by exists [sample_row]).
  destruct (read_failure_reported campaigns_down_api (mkClient 0) "5756290882"
              initial_state (mkExn GoogleAdsException "quota exceeded") Hs)
    as (_ & Hrun & Htext & _).
  split; [exact Hs |]. split; [reflexivity |]. split; [exact (Hrun Hq) |].
  exact (Htext eq_refl).
Defined.

(** X3: a read operation never stops the script and never touches the
    client cache; it raises exactly when [get_service] raises, with that
    exception and before any search is made, and otherwise it returns a
    list. *)
Theorem read_operations_outcome (api : Api) (client : GoogleAdsClient)
    (customer_id : string) (s : state) :
  read_outcome api s (list_accounts_under_mcc api client customer_id)
  /\ read_outcome api s (get_campaign_performance api client customer_id).
Proof.
  assert (Hgen : forall (A : Type) (record : GoogleAdsRow -> A) (query : string),
             let operation :=
               (call_get_service api client "GoogleAdsService" ;;;
                read_body api A record customer_id query) in
             fst (operation s) <> Stopped
             /\ (forall e, fst (operation s) = Raised e
                           <-> get_service api (calls s) "GoogleAdsService" = Some e)
             /\ (forall e, get_service api (calls s) "GoogleAdsService" = Some e ->
                           calls (snd (operation s))
                           = calls s ++ [CallGetService "GoogleAdsService"])
             /\ (get_service api (calls s) "GoogleAdsService" = None ->
                 exists result, fst (operation s) = Ok result)).
  { intros A record query operation. unfold operation.
    rewrite read_operation_unfold.
    destruct (get_service api (calls s) "GoogleAdsService") as [e' |] eqn:Hservice.
    - simpl. split; [discriminate |]. split; [| split]; [| | discriminate].
      + intros e. split; congruence.
      + by intros e _.
    - destruct (read_body_returns api A record customer_id query
                  (with_calls s [CallGetService "GoogleAdsService"])) as (r & s1 & ->).
      simpl. split; [discriminate |]. split; [| split]; [| discriminate |].
      + intros e. split; discriminate.
      + intros _. by exists r. }
  unfold read_outcome. split.
  - destruct (Hgen _ account_record accounts_query) as (H1 & H2 & H3 & H4).
    destruct (frame_bind _ _ (frame_call_get_service api client "GoogleAdsService")
                (fun _ => frame_try_except _ _
                   (frame_bind _ _ (frame_call_search api customer_id accounts_query)
                      (fun r => frame_for_rows (fst r) (snd r) account_record []))
                   frame_read_handler) s) as [Hc Hn].
    repeat split; try done; by apply H2.
  - destruct (Hgen _ campaign_record campaign_query) as (H1 & H2 & H3 & H4).
    destruct (frame_get_campaign_performance api client customer_id s) as [Hc Hn].
    repeat split; try done; by apply H2.
Qed.

(** ** Client construction failure *)

(** X4: when the cache is empty and building the client raises, the call
    stops the script after exactly one error message with the exception's
    text, so neither the connection test nor the read is run; nothing is
    cached and no client is counted, and a later call builds again: if
    building then goes through, that call returns and caches the client. *)
Theorem client_failure_not_cached (api : Api) (config : Config) (s : state) (e : Exn) :
  cache s = None ->
  load_from_dict api (calls s) config = Some e ->
  exists s1 : state,
    get_google_ads_client api config s = (Stopped, s1)
    /\ ui s1 = ui s ++ [Msg Error ("Failed to load Google Ads client: " +:+ exn_str e)]
    /\ calls s1 = calls s ++ [CallLoadFromDict]
    /\ cache s1 = None /\ constructed s1 = constructed s
    /\ (forall customer_id, main_logic api config customer_id s = (Stopped, s1))
    /\ (load_from_dict api (calls s1) config = None ->
        exists s2 : state,
          get_google_ads_client api config s1 = (Ok (mkClient (constructed s)), s2)
          /\ cache s2 = Some (mkClient (constructed s))
          /\ constructed s2 = S (constructed s)).
Proof.
  intros Hcache Hload.
  pose proof (get_client_uncached api config s Hcache) as Hrun.
  rewrite Hload in Hrun. eexists. split; [exact Hrun |].
  split; [reflexivity |]. split; [reflexivity |].
  split; [exact Hcache |]. split; [reflexivity |]. split.
  - intros customer_id. unfold main_logic, bind. by rewrite Hrun.
  - intros Hretry.
    set (s1 := with_ui (with_calls s [CallLoadFromDict])
                 [Msg Error ("Failed to load Google Ads client: " +:+ exn_str e)]) in *.
    assert (Hcache1 : cache s1 = None) by exact Hcache.
    pose proof (get_client_uncached api config s1 Hcache1) as Hrun1.
    rewrite Hretry in Hrun1. eexists. split; [exact Hrun1 |]. by split.
Qed.

Lemma client_failure_not_cached_witness :
  cache initial_state = None
  /\ load_from_dict flaky_api (calls initial_state) sample_config
     = Some (mkExn OtherException "invalid credentials")
  /\ exists s1 : state,
       get_google_ads_client flaky_api sample_config initial_state = (Stopped, s1)
       /\ ui s1 = [Msg Error "Failed to load Google Ads client: invalid credentials"]
       /\ cache s1 = None
       /\ exists s2 : state,
            get_google_ads_client flaky_api sample_config s1 = (Ok (mkClient 0), s2)
            /\ cache s2 = Some (mkClient 0).
Proof.
  split; [reflexivity |]. split; [reflexivity |].
  destruct (client_failure_not_cached flaky_api sample_config initial_state
              (mkExn OtherException "invalid credentials") eq_refl eq_refl)
    as (s1 & Hrun & Hui & Hcalls & Hcache & _ & _ & Hretry).
  exists s1. split; [exact Hrun |]. split; [exact Hui |]. split; [exact Hcache |].
  destruct Hretry as (s2 & Hrun2 & Hcache2 & _).
  { rewrite Hcalls. reflexivity. }
  exists s2. split; [exact Hrun2 | exact Hcache2].
Defined.

(** ** The script as a whole *)

Lemma dict_getitem_elem (d : list (string * string)) (key value : string) :
  dict_getitem d key = inr value -> (key, value) ∈ d.
Proof.
  induction d as [| [k v] d IH]; simpl; [discriminate |].
  destruct (String.eqb_spec k key) as [-> | _].
  - intros [= ->]. by left.
  - intros Hrest. right. by apply IH.
Qed.

Example py_repr_samples :
  py_repr "XX" = "'XX'"
  /\ py_repr "it's" = String (ascii_of_nat 34) ("it's" +:+ String (ascii_of_nat 34) "")
  /\ py_repr "a\b" = "'a\\b'".
Proof. repeat split. Qed.

Lemma dict_getitem_missing (d : list (string * string)) (key : string) :
  key ∉ map fst d -> dict_getitem d key = inl (mkExn KeyError (py_repr key)).
Proof.
  induction d as [| [k v] d IH]; simpl; [done |].
  intros Hnotin. apply not_elem_of_cons in Hnotin as [Hne Hrest].
  destruct (String.eqb_spec k key) as [-> | _]; [done | by apply IH].
Qed.

Lemma find_split (P : string -> bool) (keys : list string) (first : string) :
  List.find P keys = Some first ->
  exists before after,
    keys = before ++ first :: after
    /\ Forall (fun k => P k = false) before /\ P first = true.
Proof.
  induction keys as [| k keys IH]; simpl; [discriminate |].
  destruct (P k) eqn:Hk.
  - intros [= ->]. exists [], keys. split; [done |]. split; [constructor | done].
  - intros Hfind. destruct (IH Hfind) as (before & after & -> & Hall & Hfirst).
    exists (k :: before), after. split; [done |]. split; [by constructor | done].
Qed.

(** X5: a required variable that is missing or empty ends the script before
    anything else happens.  The five variables are read in the order
    DEVELOPER_TOKEN, CLIENT_ID, CLIENT_SECRET, REFRESH_TOKEN,
    MCC_CUSTOMER_ID; the one message names the first of them, in this order,
    that is missing or empty (every variable before it is present and
    non-empty); then the script stops, and it has made no call to the Google
    Ads library and has left the client cache as it was. *)
Theorem script_stops_before_any_call (api : Api) (env : gmap string string)
    (country : string) (s : state) (key : string) :
  key ∈ REQUIRED_KEYS -> missing env key = true ->
  exists (first : string) (before after : list string),
    ["DEVELOPER_TOKEN"; "CLIENT_ID"; "CLIENT_SECRET"; "REFRESH_TOKEN";
     "MCC_CUSTOMER_ID"] = before ++ first :: after
    /\ Forall (fun k => exists value, env !! k = Some value /\ value <> "") before
    /\ (env !! first = None \/ env !! first = Some "")
    /\ script api env country s
       = (Stopped,
          with_ui s [Msg Error ("Missing required environment variable: " +:+ first)])
    /\ calls (snd (script api env country s)) = calls s
    /\ cache (snd (script api env country s)) = cache s.
Proof.
  intros Hin Hmiss.
  destruct (find_some_missing (missing env) REQUIRED_KEYS key Hin Hmiss)
    as (first & Hfind & _ & _).
  assert (Hrun : script api env country s
                 = (Stopped,
                    with_ui s [Msg Error ("Missing required environment variable: "
                                          +:+ first)])).
  { unfold script, bind. rewrite config_cases. by rewrite Hfind. }
  destruct (find_split _ _ _ Hfind) as (before & after & Hkeys & Hbefore & Hfirst).
  exists first, before, after. rewrite Hrun.
  split; [exact Hkeys |]. split; [| split; [| by repeat split]].
  - eapply Forall_impl; [exact Hbefore |]. intros k Hk.
    destruct (missing_false env k Hk) as (value & Hvalue & Hne & _). by exists value.
  - unfold missing in Hfirst. destruct (env !! first) as [value |]; [| by left].
    right. f_equal. apply String.eqb_eq.
    by destruct (String.eqb value "").
Qed.

Lemma script_stops_before_any_call_witness :
  "CLIENT_ID" ∈ REQUIRED_KEYS
  /\ missing two_missing_env "CLIENT_ID" = true
  /\ exists (first : string) (before after : list string),
       ["DEVELOPER_TOKEN"; "CLIENT_ID"; "CLIENT_SECRET"; "REFRESH_TOKEN";
        "MCC_CUSTOMER_ID"] = before ++ first :: after
       /\ Forall (fun k => exists value, two_missing_env !! k = Some value /\ value <> "")
                 before
       /\ script healthy_api two_missing_env "NL" initial_state
          = (Stopped,
             with_ui initial_state
               [Msg Error ("Missing required environment variable: " +:+ first)])
       /\ calls (snd (script healthy_api two_missing_env "NL" initial_state)) = [].
Proof.
  assert (Hin : "CLIENT_ID" ∈ REQUIRED_KEYS) by (right; by left).
  assert (Hmiss : missing two_missing_env "CLIENT_ID" = true) by reflexivity.
  split; [exact Hin |]. split; [exact Hmiss |].
  destruct (script_stops_before_any_call healthy_api two_missing_env "NL"
              initial_state "CLIENT_ID" Hin Hmiss)
    as (first & before & after & Hkeys & Hbefore & _ & Hrun & Hcalls & _).
  exists first, before, after.
  split; [exact Hkeys |]. split; [exact Hbefore |]. split; [exact Hrun | exact Hcalls].
Defined.

Lemma trace_nil_frame {A : Type} (m : M A) :
  (forall s, calls (snd (m s)) = calls s) -> trace [] m.
Proof. intros Hm s. exists []. by rewrite Hm, app_nil_r. Qed.

Lemma trace_weaken {A : Type} (allowed allowed' : list ApiCall) (m : M A) :
  allowed `sublist_of` allowed' -> trace allowed m -> trace allowed' m.
Proof.
  intros Hsub Hm s. destruct (Hm s) as (made & Hcalls & Hmade).
  exists made. split; [done | by etrans].
Qed.

Lemma trace_bind {A B : Type} (l1 l2 : list ApiCall) (m : M A) (f : A -> M B) :
  trace l1 m -> (forall a, trace l2 (f a)) -> trace (l1 ++ l2) (bind m f).
Proof.
  intros Hm Hf s. unfold bind. destruct (Hm s) as (made1 & Hcalls1 & Hmade1).
  destruct (m s) as [[a | | e] s1]; simpl in *.
  - destruct (Hf a s1) as (made2 & Hcalls2 & Hmade2).
    exists (made1 ++ made2). split; [| by apply sublist_app].
    by rewrite Hcalls2, Hcalls1, app_assoc.
  - exists made1. split; [done | by apply sublist_inserts_r].
  - exists made1. split; [done | by apply sublist_inserts_r].
Qed.

Lemma trace_try_except {A : Type} (l1 l2 : list ApiCall) (body : M A)
    (handler : Exn -> M A) :
  trace l1 body -> (forall e, trace l2 (handler e)) ->
  trace (l1 ++ l2) (try_except body handler).
Proof.
  intros Hbody Hhandler s. unfold try_except.
  destruct (Hbody s) as (made1 & Hcalls1 & Hmade1).
  destruct (body s) as [[a | | e] s1]; simpl in *.
  - exists made1. split; [done | by apply sublist_inserts_r].
  - exists made1. split; [done | by apply sublist_inserts_r].
  - destruct (Hhandler e s1) as (made2 & Hcalls2 & Hmade2).
    exists (made1 ++ made2). split; [| by apply sublist_app].
    by rewrite Hcalls2, Hcalls1, app_assoc.
Qed.

Lemma trace_show (ev : UiEvent) : trace [] (show ev).
Proof. by apply trace_nil_frame. Qed.

Lemma trace_ret {A : Type} (a : A) : trace [] (ret a).
Proof. by apply trace_nil_frame. Qed.

Lemma trace_lift {A : Type} (x : pyres A) : trace [] (lift x).
Proof. apply trace_nil_frame. by destruct x. Qed.

Lemma trace_stop {A : Type} : trace [] (@st_stop A).
Proof. by apply trace_nil_frame. Qed.

Lemma trace_then_nil {A B : Type} (l : list ApiCall) (m : M A) (f : A -> M B) :
  trace l m -> (forall a, trace [] (f a)) -> trace l (bind m f).
Proof. intros Hm Hf. rewrite <- (app_nil_r l). by apply trace_bind. Qed.

Lemma trace_config (env : gmap string string) : trace [] (GOOGLE_ADS_CONFIG env).
Proof.
  apply trace_nil_frame. intros s. rewrite config_cases.
  by destruct (List.find (missing env) REQUIRED_KEYS).
Qed.

Lemma trace_read_handler {A : Type} (e : Exn) : trace [] (@read_handler A e).
Proof. apply trace_nil_frame. intros s. by rewrite read_handler_text. Qed.

Lemma trace_for_rows {A : Type} (rows : list GoogleAdsRow) (tail : option Exn)
    (body : GoogleAdsRow -> A) (acc : list A) :
  trace [] (for_rows rows tail body acc).
Proof.
  apply trace_nil_frame. intros s. destruct tail as [e |].
  - by rewrite for_rows_raises.
  - by rewrite for_rows_ends.
Qed.

Lemma trace_call_get_service (api : Api) (client : GoogleAdsClient) (name : string) :
  trace [CallGetService name] (call_get_service api client name).
Proof.
  intros s. exists [CallGetService name]. split; [| done].
  unfold call_get_service. simpl. by destruct (get_service api (calls s) name).
Qed.

Lemma trace_call_list_accessible_customers (api : Api) :
  trace [CallListAccessibleCustomers] (call_list_accessible_customers api).
Proof.
  intros s. exists [CallListAccessibleCustomers]. split; [| done].
  unfold call_list_accessible_customers. simpl.
  by destruct (list_accessible_customers api (calls s)).
Qed.

Lemma trace_call_search (api : Api) (customer_id query : string) :
  trace [CallSearch customer_id query] (call_search api customer_id query).
Proof.
  intros s. exists [CallSearch customer_id query]. split; [| done].
  unfold call_search. simpl. by destruct (search api (calls s) customer_id query).
Qed.

Lemma trace_get_client (api : Api) (config : Config) :
  trace [CallLoadFromDict] (get_google_ads_client api config).
Proof.
  intros s. destruct (cache s) as [c |] eqn:Hcache.
  - rewrite (get_client_cached api config s c Hcache).
    exists []. split; [by rewrite app_nil_r | apply sublist_nil_l].
  - rewrite (get_client_uncached api config s Hcache).
    exists [CallLoadFromDict]. split; [| done].
    by destruct (load_from_dict api (calls s) config).
Qed.

Lemma trace_test (api : Api) (client : GoogleAdsClient) :
  trace [CallGetService "CustomerService"; CallListAccessibleCustomers]
        (test_google_ads_connection api client).
Proof.
  unfold test_google_ads_connection, st_success, st_warning, st_error.
  rewrite <- (app_nil_r [_; _]). apply trace_try_except.
  - apply (trace_bind [_] [_]); [apply trace_call_get_service | intros _].
    apply trace_then_nil; [apply trace_call_list_accessible_customers |].
    intros [| name names];
      (apply trace_then_nil; [apply trace_show | intros _; apply trace_ret]).
  - intros e. apply trace_then_nil; [apply trace_show | intros _; apply trace_ret].
Qed.

Lemma trace_get_campaign_performance (api : Api) (client : GoogleAdsClient)
    (customer_id : string) :
  trace [CallGetService "GoogleAdsService"; CallSearch customer_id campaign_query]
        (get_campaign_performance api client customer_id).
Proof.
  unfold get_campaign_performance.
  apply (trace_bind [_] [_]); [apply trace_call_get_service | intros _].
  rewrite <- (app_nil_r [_]). apply trace_try_except; [| apply trace_read_handler].
  apply trace_then_nil; [apply trace_call_search | intros r; apply trace_for_rows].
Qed.

Lemma trace_dataframe (api : Api) (table : list (gmap string cell)) :
  trace [] (st_dataframe api table).
Proof.
  apply trace_nil_frame. intros s. unfold st_dataframe.
  by destruct (dataframe_error api table).
Qed.

Lemma trace_render (api : Api) (rows : list (gmap string pyval)) :
  trace [] (render api rows).
Proof.
  unfold render, st_info, st_metric. destruct rows as [| row rows].
  - apply trace_show.
  - apply trace_then_nil; [apply trace_lift | intros totals].
    apply trace_then_nil; [apply trace_show | intros _].
    apply trace_then_nil; [apply trace_show | intros _].
    apply trace_then_nil; [apply trace_show | intros _].
    apply trace_then_nil; [apply trace_lift | intros table; apply trace_dataframe].
Qed.

Lemma trace_main_logic (api : Api) (config : Config) (customer_id : string) :
  trace (run_calls customer_id) (main_logic api config customer_id).
Proof.
  unfold main_logic, run_calls.
  apply (trace_bind [_] [_; _; _; _]); [apply trace_get_client | intros client].
  apply (trace_bind [_; _] [_; _]);
    [apply trace_test | intros _; apply trace_get_campaign_performance].
Qed.

Lemma calls_then_nil {A B : Type} (m : M A) (f : A -> M B) (s : state) :
  (forall a, trace [] (f a)) -> calls (snd (bind m f s)) = calls (snd (m s)).
Proof.
  intros Hf. unfold bind. destruct (m s) as [[a | | e] s1]; simpl; [| done | done].
  destruct (Hf a s1) as (made & -> & Hsub).
  apply sublist_nil_r in Hsub as ->. by rewrite app_nil_r.
Qed.

(** The calls of the main logic: the client is built first, and only when
    none is cached. *)
Lemma main_logic_calls (api : Api) (config : Config) (customer_id : string)
    (s : state) :
  exists rest : list ApiCall,
    rest `sublist_of` [CallGetService "CustomerService"; CallListAccessibleCustomers;
                      CallGetService "GoogleAdsService";
                      CallSearch customer_id campaign_query]
    /\ calls (snd (main_logic api config customer_id s))
       = calls s ++ match cache s with
                    | Some _ => rest
                    | None => CallLoadFromDict :: rest
                    end.
Proof.
  assert (Hrest : forall client,
             trace [CallGetService "CustomerService"; CallListAccessibleCustomers;
                    CallGetService "GoogleAdsService";
                    CallSearch customer_id campaign_query]
                   (test_google_ads_connection api client ;;;
                    get_campaign_performance api client customer_id)).
  { intros client. apply (trace_bind [_; _] [_; _]);
      [apply trace_test | intros _; apply trace_get_campaign_performance]. }
  unfold main_logic, bind at 1.
  destruct (cache s) as [c |] eqn:Hcache.
  - rewrite (get_client_cached api config s c Hcache).
    destruct (Hrest c s) as (rest & Hcalls & Hsub). by exists rest.
  - rewrite (get_client_uncached api config s Hcache).
    destruct (load_from_dict api (calls s) config) as [e |].
    + exists []. split; [apply sublist_nil_l | done].
    + destruct (Hrest (mkClient (constructed s))
                      {| ui := ui s; calls := calls s ++ [CallLoadFromDict];
                         cache := Some (mkClient (constructed s));
                         constructed := S (constructed s) |})
        as (rest & Hcalls & Hsub).
      exists rest. split; [exact Hsub |]. rewrite Hcalls. simpl.
      by rewrite <- app_assoc.
Qed.

(** X6: in one run the script calls the Google Ads library at most five
    times and in a fixed order: building the client, the customer service,
    the accessible-customers probe, the Google Ads service, one search.  The
    client is built only when none is cached, and then before any other
    call; with a cached client [load_from_dict] is not called.  The search
    is always the enabled-campaigns query for the account the registry gives
    the selected country, so the sub-account query of
    [list_accounts_under_mcc] is never issued. *)
Theorem script_calls (api : Api) (env : gmap string string) (country : string)
    (s : state) :
  exists made : list ApiCall,
    calls (snd (script api env country s)) = calls s ++ made
    /\ (made = []
        \/ exists customer_id,
             (country, customer_id) ∈ COUNTRY_ACCOUNTS
             /\ made `sublist_of` run_calls customer_id)
    /\ (forall customer_id query,
          CallSearch customer_id query ∈ made ->
          query = campaign_query /\ (country, customer_id) ∈ COUNTRY_ACCOUNTS)
    /\ (cache s <> None -> CallLoadFromDict ∉ made)
    /\ (cache s = None -> made = [] \/ exists rest, made = CallLoadFromDict :: rest)
    /\ (forall customer_id, CallSearch customer_id accounts_query ∉ made).
Proof.
  assert (Hmain : exists made : list ApiCall,
             calls (snd (script api env country s)) = calls s ++ made
             /\ (made = []
                 \/ exists customer_id rest,
                      (country, customer_id) ∈ COUNTRY_ACCOUNTS
                      /\ rest `sublist_of` tail (run_calls customer_id)
                      /\ made = match cache s with
                                | Some _ => rest
                                | None => CallLoadFromDict :: rest
                                end)).
  { unfold script, bind at 1. rewrite config_cases.
    destruct (List.find (missing env) REQUIRED_KEYS) as [key |].
    { exists []. split; [by rewrite app_nil_r | by left]. }
    unfold bind at 1.
    destruct (dict_getitem COUNTRY_ACCOUNTS country) as [e | customer_id] eqn:Hget.
    { exists []. split; [by rewrite app_nil_r | by left]. }
    simpl lift. unfold ret.
    set (config := {| developer_token := _ |}).
    rewrite (calls_then_nil _ (render api) s (trace_render api)).
    destruct (main_logic_calls api config customer_id s) as (rest & Hsub & Hcalls).
    eexists. split; [exact Hcalls |]. right. exists customer_id, rest.
    split; [by apply dict_getitem_elem |]. by split. }
  destruct Hmain as (made & Hcalls & Hshape). exists made.
  split; [exact Hcalls |].
  assert (Hsearch : forall customer_id query,
            CallSearch customer_id query ∈ made ->
            query = campaign_query /\ (country, customer_id) ∈ COUNTRY_ACCOUNTS).
  { intros customer_id query Hin.
    destruct Hshape as [-> | (id & rest & Hreg & Hsub & ->)];
      [by apply elem_of_nil in Hin |].
    assert (Hin' : CallSearch customer_id query ∈ rest).
    { destruct (cache s); [exact Hin |].
      apply elem_of_cons in Hin as [Heq | Hin]; [discriminate Heq | exact Hin]. }
    pose proof (elem_of_submseteq _ _ _ Hin' (sublist_submseteq _ _ Hsub)) as Hall.
    simpl in Hall.
    repeat (apply elem_of_cons in Hall as [Heq | Hall]; [try discriminate Heq |]).
    + by injection Heq as -> ->.
    + by apply elem_of_nil in Hall. }
  split; [| split; [exact Hsearch | split; [| split]]].
  - destruct Hshape as [-> | (id & rest & Hreg & Hsub & ->)]; [by left | right].
    exists id. split; [exact Hreg |]. unfold run_calls in *. simpl in Hsub.
    destruct (cache s); [by apply sublist_cons | by apply sublist_skip].
  - intros Hcached Hin.
    destruct Hshape as [-> | (id & rest & Hreg & Hsub & ->)];
      [by apply elem_of_nil in Hin |].
    destruct (cache s); [| done].
    pose proof (elem_of_submseteq _ _ _ Hin (sublist_submseteq _ _ Hsub)) as Hall.
    simpl in Hall.
    repeat (apply elem_of_cons in Hall as [Heq | Hall]; [discriminate Heq |]).
    by apply elem_of_nil in Hall.
  - intros Hnone. destruct Hshape as [-> | (id & rest & Hreg & Hsub & ->)]; [by left |].
    right. rewrite Hnone. by exists rest.
  - intros customer_id Hin. destruct (Hsearch _ _ Hin) as [Hq _].
    vm_compute in Hq. discriminate Hq.
Qed.

(** ** Startup advisories *)

Lemma append_nil_l (b : string) : "" +:+ b = b.
Proof. reflexivity. Qed.

Lemma append_cons (c : ascii) (a b : string) : String c a +:+ b = String c (a +:+ b).
Proof. reflexivity. Qed.

Lemma substring_append_skip (a t : string) (m : nat) :
  String.substring (String.length a) m (a +:+ t) = String.substring 0 m t.
Proof.
  induction a as [| c a IH]; [by rewrite append_nil_l |].
  rewrite append_cons. simpl. exact IH.
Qed.

Lemma substring_prefix (t b : string) :
  String.substring 0 (String.length t) (t +:+ b) = t.
Proof.
  induction t as [| c t IH]; [by destruct b |].
  rewrite append_cons. simpl. by f_equal.
Qed.

Lemma string_length_append (a b : string) :
  String.length (a +:+ b) = (String.length a + String.length b)%nat.
Proof.
  induction a as [| c a IH]; [by rewrite append_nil_l |].
  rewrite append_cons. simpl. by f_equal.
Qed.

Lemma string_append_assoc (a b c : string) : (a +:+ b) +:+ c = a +:+ (b +:+ c).
Proof.
  induction a as [| x a IH]; [by rewrite !append_nil_l |].
  rewrite !append_cons. by f_equal.
Qed.

Lemma string_append_nil_r (a : string) : a +:+ "" = a.
Proof.
  induction a as [| x a IH]; [done |]. rewrite append_cons. by f_equal.
Qed.

Lemma substring_zero (text : string) (position : nat) :
  String.substring position 0 text = "".
Proof.
  revert position. induction text as [| x text IH]; intros [| position]; simpl; auto.
Qed.

Lemma substring_append_shift (a t : string) (position m : nat) :
  String.substring (String.length a + position) m (a +:+ t)
  = String.substring position m t.
Proof.
  induction a as [| c a IH]; [by rewrite append_nil_l |].
  rewrite append_cons. simpl. exact IH.
Qed.

Lemma substring_append_keep (text after target : string) (position : nat) :
  String.substring position (String.length target) text = target ->
  String.substring position (String.length target) (text +:+ after) = target.
Proof.
  revert position target.
  induction text as [| x text IH]; intros position target Hsub.
  - assert (target = "") as -> by (destruct position, target; simpl in Hsub; congruence).
    apply substring_zero.
  - rewrite append_cons. destruct position as [| position].
    + destruct target as [| y target]; [done |]. simpl in *.
      injection Hsub as -> Hsub. f_equal. by apply IH.
    + simpl in *. by apply IH.
Qed.

(** A substring found in a text is found after the text is extended,
    shifted by what is put in front. *)
Lemma substring_extend (needle text before after : string) (position : nat) :
  String.substring position (String.length needle) text = needle ->
  String.substring (String.length before + position) (String.length needle)
                   (before +:+ text +:+ after) = needle.
Proof.
  intros Hsub. rewrite substring_append_shift. by apply substring_append_keep.
Qed.

Lemma occurs_found (needle text : string) (position : nat) :
  String.substring position (String.length needle) text = needle ->
  occurs needle text = true.
Proof.
  intros Hsub. unfold occurs.
  destruct (String.index 0 needle text) eqn:Hindex; [done | exfalso].
  destruct needle as [| c needle].
  - apply index_correct4 in Hindex. lia.
  - by apply (index_correct3 0 position) in Hindex; [| | lia].
Qed.

Lemma occurs_substring (needle text : string) :
  occurs needle text = true ->
  exists position, String.substring position (String.length needle) text = needle.
Proof.
  unfold occurs. destruct (String.index 0 needle text) as [position |] eqn:Hindex;
    [intros _ | done].
  exists position. by apply (index_correct1 0).
Qed.

(** A text that occurs in another occurs in every extension of it. *)
Lemma occurs_extend (needle text before after : string) :
  occurs needle text = true -> occurs needle (before +:+ text +:+ after) = true.
Proof.
  intros [position Hsub]%occurs_substring.
  apply (occurs_found _ _ (String.length before + position)).
  by apply substring_extend.
Qed.

Lemma occurs_self (needle : string) : occurs needle needle = true.
Proof.
  apply (occurs_found _ _ 0). rewrite <- (string_append_nil_r needle) at 2.
  apply substring_prefix.
Qed.

Lemma occurs_concat (sep name : string) (names : list string) :
  name ∈ names -> occurs name (String.concat sep names) = true.
Proof.
  induction names as [| first [| second rest] IH]; intros Hin.
  - by apply elem_of_nil in Hin.
  - apply list_elem_of_singleton in Hin as ->. apply occurs_self.
  - change (String.concat sep (first :: second :: rest))
      with (first +:+ sep +:+ String.concat sep (second :: rest)).
    apply elem_of_cons in Hin as [-> | Hin].
    + apply (occurs_extend first first ""), occurs_self.
    + rewrite <- string_append_assoc.
      rewrite <- (string_append_nil_r (String.concat sep (second :: rest))).
      apply occurs_extend. by apply IH.
Qed.

Lemma endswith_append (stem suffix : string) : endswith (stem +:+ suffix) suffix = true.
Proof.
  unfold endswith. rewrite string_length_append.
  apply andb_true_iff. split; [apply Nat.leb_le; lia |].
  replace (String.length stem + String.length suffix - String.length suffix)%nat
    with (String.length stem) by lia.
  rewrite substring_append_skip.
  rewrite <- (string_append_nil_r suffix) at 2.
  rewrite substring_prefix. apply String.eqb_refl.
Qed.

Lemma yaml_files_elem (listing : list string) (f : string) :
  f ∈ yaml_files listing <-> f ∈ listing /\ is_yaml f = true.
Proof.
  unfold yaml_files. rewrite !list_elem_of_In. apply filter_In.
Qed.

Lemma substring_split (text : string) (k : nat) :
  (k <= String.length text)%nat ->
  text = String.substring 0 k text
         +:+ String.substring k (String.length text - k) text.
Proof.
  revert k. induction text as [| c text IH]; intros k Hk.
  - simpl in Hk. by replace k with 0%nat by lia.
  - destruct k as [| k].
    + change (String.substring 0 0 (String c text)) with "".
      rewrite append_nil_l, Nat.sub_0_r.
      rewrite <- (string_append_nil_r (String c text)) at 3.
      by rewrite substring_prefix.
    + simpl in Hk. simpl String.substring. rewrite append_cons. f_equal.
      apply IH. lia.
Qed.

Lemma substring_prefix_of (text : string) (len : nat) :
  exists after, text = String.substring 0 len text +:+ after.
Proof.
  revert len. induction text as [| c text IH]; intros [| len].
  - by exists "".
  - by exists "".
  - by exists (String c text).
  - destruct (IH len) as [after Hafter]. exists after.
    simpl String.substring. rewrite append_cons. by f_equal.
Qed.

(** What [substring] returns is a contiguous part of the text. *)
Lemma substring_part_of (text : string) (position len : nat) :
  part_of (String.substring position len text) text.
Proof.
  revert position. induction text as [| c text IH]; intros position.
  - exists "", "". by destruct position, len.
  - destruct position as [| position].
    + destruct (substring_prefix_of (String c text) len) as [after Hafter].
      by exists "", after.
    + destruct (IH position) as (before & after & Htext).
      exists (String c before), after. simpl String.substring.
      rewrite append_cons. by f_equal.
Qed.

Lemma occurs_part_of (needle text : string) :
  occurs needle text = true <-> part_of needle text.
Proof.
  split.
  - intros [position Hsub]%occurs_substring. rewrite <- Hsub.
    apply substring_part_of.
  - intros (before & after & ->). apply occurs_extend, occurs_self.
Qed.

Lemma endswith_suffix (text suffix : string) :
  endswith text suffix = true <-> exists stem, text = stem +:+ suffix.
Proof.
  split; [| intros [stem ->]; apply endswith_append].
  unfold endswith. intros [Hlen Heq]%andb_true_iff.
  apply Nat.leb_le in Hlen. apply String.eqb_eq in Heq.
  set (n := String.length text) in *. set (m := String.length suffix) in *.
  exists (String.substring 0 (n - m) text).
  rewrite <- Heq.
  pose proof (substring_split text (n - m) ltac:(lia)) as Hsplit. fold n in Hsplit.
  by replace (n - (n - m))%nat with m in Hsplit by lia.
Qed.

Lemma is_yaml_name (f : string) : is_yaml f = true <-> yaml_name f.
Proof.
  unfold is_yaml, yaml_name. rewrite orb_true_iff, !endswith_suffix.
  split.
  - intros [[stem ->] | [stem ->]]; exists stem; [by left | by right].
  - intros [stem [-> | ->]]; [left | right]; by exists stem.
Qed.

Lemma yaml_files_sublist (listing : list string) :
  yaml_files listing `sublist_of` listing.
Proof.
  unfold yaml_files. induction listing as [| f listing IH]; simpl; [constructor |].
  destruct (is_yaml f); [by apply sublist_skip | by apply sublist_cons].
Qed.

(** The test of line 20, in terms of the names of the listing. *)
Lemma yaml_warning_due (listing : list string) :
  existsb (occurs "google-ads") (yaml_files listing) = true
  <-> exists f, f ∈ listing /\ yaml_name f /\ part_of "google-ads" f.
Proof.
  rewrite existsb_exists. split.
  - intros (f & Hin & Hads).
    apply list_elem_of_In, yaml_files_elem in Hin as [Hin Hyaml].
    exists f. split; [exact Hin |].
    split; [by apply is_yaml_name | by apply occurs_part_of].
  - intros (f & Hin & Hyaml & Hads). exists f.
    split; [| by apply occurs_part_of].
    apply list_elem_of_In, yaml_files_elem. split; [exact Hin | by apply is_yaml_name].
Qed.

(** X7: [f.endswith('.yaml') or f.endswith('.yml')] holds exactly of the
    names that are some stem followed by ".yaml" or ".yml", and
    ['google-ads' in f] exactly of the names with "google-ads" as a
    contiguous part.  The YAML advisory is shown exactly when some name of
    the directory listing satisfies both, and nothing is shown otherwise.
    When it is shown, it is one warning whose text is
    "YAML credential file(s) detected: ", the ".yaml" and ".yml" names of
    the listing in listing order separated by ", ", and
    ". Please delete them for maximum security."; it names every such file,
    also those that do not contain "google-ads". *)
Theorem yaml_warning_behaviour (listing : list string) (s : state) :
  (forall f, is_yaml f = true <-> yaml_name f)
  /\ (forall needle text, occurs needle text = true <-> part_of needle text)
  /\ ((exists f, f ∈ listing /\ yaml_name f /\ part_of "google-ads" f) ->
      yaml_warning listing s
      = (Ok tt, with_ui s [Msg Warning (yaml_warning_text listing)]))
  /\ (~ (exists f, f ∈ listing /\ yaml_name f /\ part_of "google-ads" f) ->
      yaml_warning listing s = (Ok tt, s))
  /\ (exists names : list string,
        names `sublist_of` listing
        /\ (forall g, g ∈ names <-> g ∈ listing /\ yaml_name g)
        /\ yaml_warning_text listing
           = "YAML credential file(s) detected: "
             +:+ String.concat ", " names
             +:+ ". Please delete them for maximum security.")
  /\ (forall g, g ∈ listing -> yaml_name g -> part_of g (yaml_warning_text listing)).
Proof.
  split; [exact is_yaml_name |]. split; [exact occurs_part_of |].
  split; [| split; [| split]].
  - intros Hex. unfold yaml_warning. apply yaml_warning_due in Hex. by rewrite Hex.
  - intros Hnone. unfold yaml_warning.
    destruct (existsb (occurs "google-ads") (yaml_files listing)) eqn:Hex; [| done].
    exfalso. by apply Hnone, yaml_warning_due.
  - exists (yaml_files listing). split; [apply yaml_files_sublist |]. split; [| done].
    intros g. rewrite yaml_files_elem. by rewrite is_yaml_name.
  - intros g Hin Hyaml. apply occurs_part_of. unfold yaml_warning_text.
    apply occurs_extend, occurs_concat, yaml_files_elem.
    split; [exact Hin | by apply is_yaml_name].
Qed.

Lemma yaml_warning_behaviour_witness :
  (exists f, f ∈ ["notes.yml"; "google-ads.yaml"; "app.py"]
             /\ yaml_name f /\ part_of "google-ads" f)
  /\ yaml_warning ["notes.yml"; "google-ads.yaml"; "app.py"] initial_state
     = (Ok tt,
        with_ui initial_state
          [Msg Warning (yaml_warning_text ["notes.yml"; "google-ads.yaml"; "app.py"])])
  /\ part_of "notes.yml" (yaml_warning_text ["notes.yml"; "google-ads.yaml"; "app.py"]).
Proof.
  assert (Hex : exists f, f ∈ ["notes.yml"; "google-ads.yaml"; "app.py"]
                          /\ yaml_name f /\ part_of "google-ads" f).
  { exists "google-ads.yaml". split; [by right; left |]. split.
    - exists "google-ads". by left.
    - by exists "", ".yaml". }
  destruct (yaml_warning_behaviour ["notes.yml"; "google-ads.yaml"; "app.py"]
              initial_state) as (_ & _ & Hrun & _ & _ & Hnamed).
  split; [exact Hex |]. split; [exact (Hrun Hex) |].
  apply Hnamed; [by left |]. exists "notes". by right.
Defined.

(** ** Totals: order, type errors, exact values *)

(** The sum over one metric: a [TypeError] as soon as a row holds a
    non-empty string there, and otherwise the integers added up. *)
Lemma py_sum_from_cases (key : string) (rows : list (gmap string pyval)) (acc : Z) :
  py_sum_from acc (map (metric_or_zero key) rows) =
  if existsb (metric_is_text key) rows
  then inl (mkExn TypeError "unsupported operand type(s) for +: 'int' and 'str'")
  else inr (acc + sum_metric key rows).
Proof.
  revert acc. induction rows as [| row rows IH]; intros acc.
  - simpl. f_equal. unfold sum_metric. simpl. lia.
  - simpl map. simpl existsb.
    unfold metric_or_zero at 1, metric_is_text at 1, row_get, py_or.
    change (sum_metric key (row :: rows))
      with (metric_int key row + sum_metric key rows).
    unfold metric_int.
    destruct (row !! key) as [[| z | text] |]; simpl.
    + rewrite IH. destruct (existsb _ rows); [done | f_equal; lia].
    + destruct (Z.eqb_spec z 0) as [-> | _]; simpl; rewrite IH;
        (destruct (existsb _ rows); [done | f_equal; lia]).
    + destruct (String.eqb_spec text "") as [-> | _]; simpl; [| done].
      rewrite IH. destruct (existsb _ rows); [done | f_equal; lia].
    + rewrite IH. destruct (existsb _ rows); [done | f_equal; lia].
Qed.

Lemma sum_metric_perm (key : string) (rows rows' : list (gmap string pyval)) :
  rows ≡ₚ rows' -> sum_metric key rows = sum_metric key rows'.
Proof.
  unfold sum_metric. induction 1; simpl; lia.
Qed.

Lemma existsb_perm {A : Type} (f : A -> bool) (l l' : list A) :
  l ≡ₚ l' -> existsb f l = existsb f l'.
Proof.
  induction 1 as [| x l l' _ IH | x y l | l l' l'' _ IH1 _ IH2]; simpl.
  - done.
  - by rewrite IH.
  - by destruct (f x), (f y).
  - by rewrite IH1.
Qed.

(** X8: the totals do not depend on the order of the rows: any
    rearrangement of a row list gives the same three totals, or the same
    exception. *)
Theorem summarize_permutation (rows rows' : list (gmap string pyval)) :
  rows ≡ₚ rows' -> summarize rows = summarize rows'.
Proof.
  intros Hperm. unfold summarize, total_impressions, total_clicks, total_cost, py_sum.
  rewrite !py_sum_from_cases.
  rewrite !(existsb_perm _ rows rows' Hperm).
  by rewrite !(sum_metric_perm _ rows rows' Hperm).
Qed.

Lemma summarize_permutation_witness :
  scenario_rows ≡ₚ reverse scenario_rows
  /\ summarize scenario_rows = summarize (reverse scenario_rows).
Proof.
  assert (Hperm : scenario_rows ≡ₚ reverse scenario_rows)
    by (symmetry; apply reverse_Permutation).
  split; [exact Hperm | exact (summarize_permutation _ _ Hperm)].
Defined.

Lemma existsb_elem {A : Type} (f : A -> bool) (l : list A) :
  existsb f l = true <-> exists x, x ∈ l /\ f x = true.
Proof.
  rewrite existsb_exists. split; intros (x & Hin & Hf); exists x;
    (split; [by apply list_elem_of_In | done]).
Qed.

(** X9: computing the totals raises a [TypeError] exactly when some row
    holds a non-empty string in one of the three metric fields (an empty
    string counts as zero, like null); the page then shows neither cards nor
    table. *)
Theorem summarize_type_error (rows : list (gmap string pyval)) :
  ((exists key row, key ∈ METRIC_KEYS /\ row ∈ rows /\ metric_is_text key row = true)
   <-> exists e, summarize rows = inl e /\ exn_class e = TypeError)
  /\ (forall api e s, summarize rows = inl e -> rows <> [] ->
                      render api rows s = (Raised e, s))
  /\ (forall key row, row !! key = Some (VStr "") -> metric_or_zero key row = VInt 0).
Proof.
  split; [| split].
  - unfold summarize, total_impressions, total_clicks, total_cost, py_sum.
    rewrite !py_sum_from_cases.
    destruct (existsb (metric_is_text "metrics.impressions") rows) eqn:Hi.
    { split; [intros _; by eexists | intros _].
      apply existsb_elem in Hi as (row & Hin & Htext).
      exists "metrics.impressions", row. split; [by left | done]. }
    destruct (existsb (metric_is_text "metrics.clicks") rows) eqn:Hc.
    { split; [intros _; by eexists | intros _].
      apply existsb_elem in Hc as (row & Hin & Htext).
      exists "metrics.clicks", row. split; [by right; left | done]. }
    destruct (existsb (metric_is_text "metrics.cost_micros") rows) eqn:Hk.
    { split; [intros _; by eexists | intros _].
      apply existsb_elem in Hk as (row & Hin & Htext).
      exists "metrics.cost_micros", row. split; [by right; right; left | done]. }
    split.
    + intros (key & row & Hkey & Hin & Htext). exfalso.
      assert (Hex : existsb (metric_is_text key) rows = true)
        by (apply existsb_elem; by exists row).
      unfold METRIC_KEYS in Hkey.
      repeat (apply elem_of_cons in Hkey as [-> | Hkey]; [congruence |]).
      by apply elem_of_nil in Hkey.
    + intros (e & Hrun & Hclass). exfalso. simpl in Hrun.
      unfold py_truediv in Hrun. simpl in Hrun.
      destruct (0 + sum_metric "metrics.cost_micros" rows =? 0); [discriminate |].
      destruct (round_binary64 _ _) as [[| p | p] exponent]; try discriminate.
      destruct (971 <? exponent); [| discriminate].
      injection Hrun as <-. discriminate.
  - intros api e s Hrun Hne. destruct rows as [| row rows]; [done |].
    unfold render, bind, lift. by rewrite Hrun.
  - intros key row Hrow. unfold metric_or_zero, row_get. by rewrite Hrow.
Qed.

Lemma summarize_type_error_witness :
  (exists key row, key ∈ METRIC_KEYS /\ row ∈ [text_clicks_row]
                   /\ metric_is_text key row = true)
  /\ exists e, summarize [text_clicks_row] = inl e /\ exn_class e = TypeError.
Proof.
  assert (Hex : exists key row, key ∈ METRIC_KEYS /\ row ∈ [text_clicks_row]
                                /\ metric_is_text key row = true).
  { exists "metrics.clicks", text_clicks_row.
    split; [by right; left |]. split; [by left | reflexivity]. }
  split; [exact Hex |].
  exact (proj1 (proj1 (summarize_type_error [text_clicks_row])) Hex).
Defined.

(** ** True division: range and exact quotients *)

Lemma round_half_even_exact (c d : Z) : 0 < d -> round_half_even (c * d) d = c.
Proof.
  intros Hd. unfold round_half_even.
  rewrite Z.div_mul, Z.mod_mul by lia.
  destruct (Z.compare_spec (2 * 0) d); lia.
Qed.

(** The rational a finite float denotes, whatever the sign of its exponent. *)
Lemma F2Q_finite (s : bool) (p : positive) (e : Z) :
  (F2Q (S754_finite s p e)
   == ((if s then Zneg p else Zpos p) * 2 ^ Z.max 0 e) # Z.to_pos (2 ^ Z.max 0 (- e)))%Q.
Proof.
  unfold F2Q. destruct (Z.leb_spec 0 e).
  - rewrite (Z.max_r 0 e), (Z.max_l 0 (- e)) by lia. reflexivity.
  - rewrite (Z.max_l 0 e), (Z.max_r 0 (- e)) by lia.
    rewrite Z.pow_0_r, Z.mul_1_r. reflexivity.
Qed.

(** A quotient below 2^1023 in absolute value fits a float. *)
Lemma truediv_defined (a b : Z) :
  0 < b -> Z.abs a < FLOAT_RANGE * b -> exists f, py_truediv a b = inr f.
Proof.
  intros Hb Hab. unfold py_truediv, round_binary64.
  destruct (Z.eqb_spec b 0) as [| _]; [lia |].
  destruct (Z.eqb_spec a 0) as [| Ha]; [by eexists |].
  rewrite (Z.abs_eq b) by lia.
  assert (Hpa : 0 < Z.abs a) by lia.
  pose proof (ilog2_quot_lt (Z.abs a) b 1023 Hpa Hb ltac:(lia) Hab) as Hlog.
  assert (Hsh : - 970 <= frac_bits (Z.abs a) b) by (unfold frac_bits; lia).
  destruct (round_quot (Z.abs a) b =? 2 ^ 53).
  - change (2 ^ 52) with (Zpos 4503599627370496).
    destruct (Z.ltb_spec 971 (1 - frac_bits (Z.abs a) b)); [lia | by eexists].
  - destruct (round_quot (Z.abs a) b) as [| p | p]; [by eexists | | by eexists].
    destruct (Z.ltb_spec 971 (- frac_bits (Z.abs a) b)); [lia | by eexists].
Qed.

(** A whole quotient below 2^53 in absolute value is computed exactly. *)
Lemma truediv_exact (c b : Z) :
  0 < b -> Z.abs c < 2 ^ 53 ->
  exists f, py_truediv (c * b) b = inr f /\ (F2Q f == inject_Z c)%Q.
Proof.
  intros Hb Hc. destruct (Z.eq_dec c 0) as [-> | Hnz].
  { exists (S754_zero false). split; [| reflexivity].
    unfold py_truediv. rewrite Z.mul_0_l.
    destruct (Z.eqb_spec b 0); [lia |].
    destruct (Z.ltb_spec b 0); [lia | reflexivity]. }
  assert (Ha : c * b <> 0) by nia.
  assert (Habs : Z.abs (c * b) = Z.abs c * b) by (rewrite Z.abs_mul; lia).
  assert (Hpa : 0 < Z.abs c * b) by nia.
  assert (Hlt : Z.abs c * b < 2 ^ 53 * b) by nia.
  pose proof (ilog2_quot_lt _ b 53 Hpa Hb ltac:(lia) Hlt) as Hlog.
  unfold py_truediv, round_binary64.
  destruct (Z.eqb_spec b 0) as [| _]; [lia |].
  destruct (Z.eqb_spec (c * b) 0) as [| _]; [lia |].
  rewrite (Z.abs_eq b), Habs by lia.
  assert (Hneg : xorb (c * b <? 0) (b <? 0) = (c <? 0)).
  { destruct (Z.ltb_spec b 0); [lia |].
    destruct (Z.ltb_spec (c * b) 0), (Z.ltb_spec c 0); try done; nia. }
  rewrite Hneg.
  set (sh := frac_bits (Z.abs c * b) b) in *.
  assert (Hsh : 0 <= sh <= 1074) by (unfold sh, frac_bits; lia).
  assert (Hpow : 0 < 2 ^ sh) by (apply Z.pow_pos_nonneg; lia).
  assert (Hq : round_quot (Z.abs c * b) b = Z.abs c * 2 ^ sh).
  { unfold round_quot. fold sh.
    rewrite (Z.max_r 0 sh), (Z.max_l 0 (- sh)) by lia.
    rewrite Z.pow_0_r, Z.mul_1_r.
    replace (Z.abs c * b * 2 ^ sh) with (Z.abs c * 2 ^ sh * b) by lia.
    by apply round_half_even_exact. }
  rewrite Hq.
  assert (Hsign : (if c <? 0 then - Z.abs c else Z.abs c) = c)
    by (destruct (Z.ltb_spec c 0); lia).
  destruct (Z.eqb_spec (Z.abs c * 2 ^ sh) (2 ^ 53)) as [Hcarry | _].
  - change (2 ^ 52) with (Zpos 4503599627370496).
    destruct (Z.ltb_spec 971 (1 - sh)); [lia |].
    eexists; split; [reflexivity |].
    rewrite F2Q_finite. unfold Qeq. simpl Qnum. simpl Qden.
    rewrite Z2Pos.id by (apply Z.pow_pos_nonneg; lia).
    assert (Hcases : sh = 0 \/ 0 < sh) by lia.
    destruct Hcases as [Hz | Hp].
    + rewrite Hz in *. change (1 - 0) with 1.
      rewrite Z.pow_0_r, Z.mul_1_r in Hcarry.
      change (Z.max 0 1) with 1. change (Z.max 0 (- 1)) with 0.
      destruct (Z.ltb_spec c 0); simpl; lia.
    + rewrite (Z.max_l 0 (1 - sh)), (Z.max_r 0 (- (1 - sh))) by lia.
      replace (- (1 - sh)) with (sh - 1) by lia.
      assert (Hsplit : 2 ^ sh = 2 * 2 ^ (sh - 1))
        by (rewrite <- Z.pow_succ_r by lia; f_equal; lia).
      rewrite Hsplit in Hcarry.
      assert (0 < 2 ^ (sh - 1)) by (apply Z.pow_pos_nonneg; lia).
      destruct (Z.ltb_spec c 0); simpl; nia.
  - destruct (Z.abs c * 2 ^ sh) as [| p | p] eqn:Hp; [nia | | nia].
    destruct (Z.ltb_spec 971 (- sh)); [lia |].
    eexists; split; [reflexivity |].
    rewrite F2Q_finite. unfold Qeq. simpl Qnum. simpl Qden.
    rewrite Z2Pos.id by (apply Z.pow_pos_nonneg; lia).
    rewrite (Z.max_l 0 (- sh)), (Z.max_r 0 (- - sh)) by lia.
    rewrite Z.opp_involutive, Z.pow_0_r.
    destruct (Z.ltb_spec c 0).
    + change (Z.neg p) with (- Z.pos p). rewrite <- Hp. nia.
    + rewrite <- Hp. nia.
Qed.

(** X10: when the cost fields are integers, null or absent and the summed
    cost micros are a whole number of currency units below 2^53 in absolute
    value, the total cost is exactly that number: the division by 1,000,000
    loses nothing. *)
Theorem total_cost_exact_whole_units (rows : list (gmap string pyval)) (units : Z) :
  Forall (fun row => metric_typed "metrics.cost_micros" row = true) rows ->
  sum_micros rows = units * 1000000 ->
  Z.abs units < 2 ^ 53 ->
  exists total : spec_float,
    total_cost rows = inr total /\ (F2Q total == inject_Z units)%Q.
Proof.
  intros Htyped Hsum Hunits. rewrite (total_cost_typed rows Htyped), Hsum.
  by apply truediv_exact.
Qed.

Lemma total_cost_exact_whole_units_witness :
  Forall (fun row => metric_typed "metrics.cost_micros" row = true) scenario_rows
  /\ sum_micros scenario_rows = 6 * 1000000
  /\ Z.abs 6 < 2 ^ 53
  /\ exists total : spec_float,
       total_cost scenario_rows = inr total /\ (F2Q total == inject_Z 6)%Q.
Proof.
  assert (Ht : Forall (fun row => metric_typed "metrics.cost_micros" row = true)
                      scenario_rows) by (repeat constructor).
  assert (Hs : sum_micros scenario_rows = 6 * 1000000) by reflexivity.
  assert (Hu : Z.abs 6 < 2 ^ 53) by reflexivity.
  split; [exact Ht |]. split; [exact Hs |]. split; [exact Hu |].
  exact (total_cost_exact_whole_units scenario_rows 6 Ht Hs Hu).
Defined.

(** ** The table *)

Lemma table_row_entry (row : gmap string pyval) :
  match table_row row with
  | inr entry => table_entry row entry
  | inl e => cost_cell row = inl e
  end.
Proof.
  unfold table_row. destruct (cost_cell row) as [e | k] eqn:Hcost; simpl; [done |].
  unfold table_entry, row_get. split.
  - rewrite !dom_insert_L, dom_empty_L. unfold TABLE_COLUMNS. set_solver.
  - repeat split; try by simplify_map_eq.
    exists k. split; [done | by simplify_map_eq].
Qed.

Lemma table_data_from_shape (rows : list (gmap string pyval))
    (acc : list (gmap string cell)) :
  match table_data_from acc rows with
  | inr table => exists entries, table = acc ++ entries /\ Forall2 table_entry rows entries
  | inl e =>
      exists before row after,
        rows = before ++ row :: after /\ cost_cell row = inl e
        /\ Forall (fun r => exists k, cost_cell r = inr k) before
  end.
Proof.
  revert acc. induction rows as [| row rows IH]; intros acc; simpl.
  - exists []. split; [by rewrite app_nil_r | constructor].
  - pose proof (table_row_entry row) as Hrow.
    destruct (table_row row) as [e | entry]; simpl.
    + exists [], row, rows. split; [done |]. split; [done | constructor].
    + specialize (IH (acc ++ [entry])).
      destruct (table_data_from (acc ++ [entry]) rows) as [e | table].
      * destruct IH as (before & bad & after & -> & Hbad & Hbefore).
        exists (row :: before), bad, after. split; [done |]. split; [done |].
        constructor; [| done]. destruct Hrow as (_ & _ & _ & _ & _ & k & Hk & _).
        by exists k.
      * destruct IH as (entries & -> & Hall). exists (entry :: entries).
        split; [by rewrite <- app_assoc | by constructor].
Qed.

(** X11: when the table is built it has one entry per row, in the order of
    the rows, each with exactly the five columns: the campaign id and name as
    the row has them, the impressions and clicks as the row has them with 0
    for an absent field, and the float of the cost division.  When building
    it raises, the exception is the one of the first row whose cost division
    raises. *)
Theorem table_data_shape (rows : list (gmap string pyval)) :
  match table_data rows with
  | inr table => length table = length rows /\ Forall2 table_entry rows table
  | inl e =>
      exists before row after,
        rows = before ++ row :: after /\ cost_cell row = inl e
        /\ Forall (fun r => exists k, cost_cell r = inr k) before
  end.
Proof.
  unfold table_data. pose proof (table_data_from_shape rows []) as Hshape.
  destruct (table_data_from [] rows) as [e | table]; [exact Hshape |].
  destruct Hshape as (entries & -> & Hall). simpl.
  split; [symmetry; by eapply Forall2_length | exact Hall].
Qed.

(** X12: a null impressions or clicks field is shown as null in the table
    although the totals count it as zero, while a null cost is shown as 0.0;
    an absent impressions or clicks field is shown as 0. *)
Theorem table_null_fields (row : gmap string pyval) (entry : gmap string cell) :
  table_row row = inr entry ->
  (row !! "metrics.impressions" = Some VNone ->
   entry !! "Impressions" = Some (CPy VNone)
   /\ metric_or_zero "metrics.impressions" row = VInt 0)
  /\ (row !! "metrics.clicks" = Some VNone ->
      entry !! "Clicks" = Some (CPy VNone)
      /\ metric_or_zero "metrics.clicks" row = VInt 0)
  /\ (row !! "metrics.cost_micros" = Some VNone ->
      entry !! "Cost (€)" = Some (CFloat float_zero))
  /\ (row !! "metrics.impressions" = None ->
      entry !! "Impressions" = Some (CPy (VInt 0)))
  /\ (row !! "metrics.clicks" = None -> entry !! "Clicks" = Some (CPy (VInt 0))).
Proof.
  intros Hrow. pose proof (table_row_entry row) as Hentry. rewrite Hrow in Hentry.
  destruct Hentry as (_ & _ & _ & Himp & Hclk & k & Hk & Hcost).
  split; [| split; [| split; [| split]]].
  - intros Hnull. rewrite Hnull in Himp. split; [exact Himp |].
    apply metric_or_zero_absent. by right.
  - intros Hnull. rewrite Hnull in Hclk. split; [exact Hclk |].
    apply metric_or_zero_absent. by right.
  - intros Hnull. rewrite Hcost. unfold cost_cell in Hk.
    rewrite (metric_or_zero_absent _ row (or_intror Hnull)) in Hk.
    by injection Hk as <-.
  - intros Habsent. by rewrite Habsent in Himp.
  - intros Habsent. by rewrite Habsent in Hclk.
Qed.

Lemma table_null_fields_witness :
  exists entry : gmap string cell,
    table_row null_impressions_row = inr entry
    /\ null_impressions_row !! "metrics.impressions" = Some VNone
    /\ entry !! "Impressions" = Some (CPy VNone)
    /\ metric_or_zero "metrics.impressions" null_impressions_row = VInt 0.
Proof.
  destruct (table_row_cost null_impressions_row float_two eq_refl) as (entry & Hrow & _).
  exists entry. split; [exact Hrow |]. split; [reflexivity |].
  exact (proj1 (table_null_fields null_impressions_row entry Hrow) eq_refl).
Defined.

(** ** The page for rows in range *)

Lemma cost_cells_defined (rows : list (gmap string pyval)) :
  Forall (fun row => metric_typed "metrics.cost_micros" row = true) rows ->
  Forall (fun row => Z.abs (micros_of row) < FLOAT_RANGE * 1000000) rows ->
  Forall (fun row => exists k, cost_cell row = inr k) rows.
Proof.
  intros Htyped Hrange. induction Htyped as [| row rows Hrow _ IH]; [constructor |].
  apply Forall_cons in Hrange as [Hr Hrs]. constructor; [| by apply IH].
  rewrite (cost_cell_typed row Hrow). by apply truediv_defined.
Qed.

(** What the page shows for a non-empty row list once the totals and the
    table are computed: the three cards, and then the table unless
    [st.dataframe] refuses it. *)
Lemma render_unfold (api : Api) (rows : list (gmap string pyval)) (totals : Totals)
    (table : list (gmap string cell)) (s : state) :
  rows <> [] -> summarize rows = inr totals -> table_data rows = inr table ->
  render api rows s =
  match dataframe_error api table with
  | None =>
      (Ok tt, with_ui s [Metric "Impressions" (format_int (impressions totals));
                         Metric "Clicks" (format_int (clicks totals));
                         Metric "Cost" ("€" +:+ format_2f (cost totals));
                         Dataframe table])
  | Some e =>
      (Raised e, with_ui s [Metric "Impressions" (format_int (impressions totals));
                            Metric "Clicks" (format_int (clicks totals));
                            Metric "Cost" ("€" +:+ format_2f (cost totals))])
  end.
Proof.
  intros Hne Htotals Htable. destruct rows as [| row rows']; [done |].
  unfold render. rewrite Htotals, Htable.
  unfold st_dataframe, with_ui, st_metric, show, raise, bind, lift, ret. simpl.
  destruct (dataframe_error api table) as [e |];
    do 2 f_equal; simpl; rewrite <- ?app_assoc; reflexivity.
Qed.

(** X13: for a non-empty row list whose metric fields are integers, null or
    absent and whose costs, each and summed, are below 2^1023 currency units
    in absolute value, the totals and the table are computed without an
    exception, the table has one five-column entry per row, and the page
    shows exactly the three cards, with the integer sums and the total cost
    formatted, followed by the table; it raises only with the exception of
    [st.dataframe], when that refuses the table, and then after the three
    cards. *)
Theorem render_outcome (api : Api) (rows : list (gmap string pyval)) (s : state) :
  rows <> [] ->
  Forall (fun row => row_typed row = true) rows ->
  Forall (fun row => Z.abs (micros_of row) < FLOAT_RANGE * 1000000) rows ->
  Z.abs (sum_micros rows) < FLOAT_RANGE * 1000000 ->
  exists (total : spec_float) (table : list (gmap string cell)),
    total_cost rows = inr total
    /\ table_data rows = inr table
    /\ length table = length rows
    /\ Forall2 table_entry rows table
    /\ render api rows s =
       match dataframe_error api table with
       | None =>
           (Ok tt,
            with_ui s [Metric "Impressions"
                              (format_int (sum_metric "metrics.impressions" rows));
                       Metric "Clicks" (format_int (sum_metric "metrics.clicks" rows));
                       Metric "Cost" ("€" +:+ format_2f total);
                       Dataframe table])
       | Some e =>
           (Raised e,
            with_ui s [Metric "Impressions"
                              (format_int (sum_metric "metrics.impressions" rows));
                       Metric "Clicks" (format_int (sum_metric "metrics.clicks" rows));
                       Metric "Cost" ("€" +:+ format_2f total)])
       end.
Proof.
  intros Hne Htyped Hrange Hsum.
  assert (Hcost : Forall (fun row => metric_typed "metrics.cost_micros" row = true) rows)
    by (apply rows_typed_metric; [done | by right; right; left]).
  destruct (truediv_defined (sum_micros rows) 1000000 ltac:(lia) Hsum) as [total Htotal].
  pose proof (cost_cells_defined rows Hcost Hrange) as Hcells.
  pose proof (table_data_from_shape rows []) as Hshape. fold (table_data rows) in Hshape.
  destruct (table_data rows) as [e | table] eqn:Htable.
  { exfalso. destruct Hshape as (before & row & after & -> & Hbad & _).
    apply Forall_app in Hcells as [_ Hcells].
    apply Forall_cons in Hcells as [[k Hk] _]. congruence. }
  destruct Hshape as (entries & Heq & Hall). simpl in Heq. subst entries.
  assert (Hlen : length table = length rows) by (symmetry; by eapply Forall2_length).
  exists total, table.
  split; [by rewrite total_cost_typed |]. split; [reflexivity |].
  split; [exact Hlen |]. split; [exact Hall |].
  apply (render_unfold api rows
           {| impressions := sum_metric "metrics.impressions" rows;
              clicks := sum_metric "metrics.clicks" rows;
              cost := total |} table s Hne); [| exact Htable].
  by rewrite (summarize_typed _ Htyped), Htotal.
Qed.

Lemma render_outcome_witness :
  scenario_rows <> []
  /\ Forall (fun row => row_typed row = true) scenario_rows
  /\ Forall (fun row => Z.abs (micros_of row) < FLOAT_RANGE * 1000000) scenario_rows
  /\ Z.abs (sum_micros scenario_rows) < FLOAT_RANGE * 1000000
  /\ exists (total : spec_float) (table : list (gmap string cell)),
       total_cost scenario_rows = inr total
       /\ table_data scenario_rows = inr table
       /\ length table = length scenario_rows
       /\ Forall2 table_entry scenario_rows table
       /\ render healthy_api scenario_rows initial_state =
          match dataframe_error healthy_api table with
          | None =>
              (Ok tt,
               with_ui initial_state
                 [Metric "Impressions"
                         (format_int (sum_metric "metrics.impressions" scenario_rows));
                  Metric "Clicks" (format_int (sum_metric "metrics.clicks" scenario_rows));
                  Metric "Cost" ("€" +:+ format_2f total);
                  Dataframe table])
          | Some e =>
              (Raised e,
               with_ui initial_state
                 [Metric "Impressions"
                         (format_int (sum_metric "metrics.impressions" scenario_rows));
                  Metric "Clicks" (format_int (sum_metric "metrics.clicks" scenario_rows));
                  Metric "Cost" ("€" +:+ format_2f total)])
          end.
Proof.
  assert (Hne : scenario_rows <> []) by discriminate.
  assert (Ht : Forall (fun row => row_typed row = true) scenario_rows)
    by (repeat constructor).
  assert (Hr : Forall (fun row => Z.abs (micros_of row) < FLOAT_RANGE * 1000000)
                      scenario_rows)
    by (repeat constructor; vm_compute; reflexivity).
  assert (Hs : Z.abs (sum_micros scenario_rows) < FLOAT_RANGE * 1000000)
    by (vm_compute; reflexivity).
  split; [exact Hne |]. split; [exact Ht |]. split; [exact Hr |]. split; [exact Hs |].
  exact (render_outcome healthy_api scenario_rows initial_state Hne Ht Hr Hs).
Defined.

(** ** How the main logic ends *)

Lemma test_returns (api : Api) (client : GoogleAdsClient) (s : state) :
  exists verified made,
    fst (test_google_ads_connection api client s) = Ok verified
    /\ calls (snd (test_google_ads_connection api client s)) = calls s ++ made.
Proof.
  destruct (test_google_ads_connection_cases api client s) as [made Hrun].
  rewrite Hrun. destruct (probe api (calls s)) as [e | [| name names]];
    eexists _, made; by split.
Qed.

(** X14: the main logic stops the script exactly when no client is cached
    and building one raises; it raises only with an exception that
    [get_service] raised for the Google Ads service; in every other case it
    returns a list.  Whenever a client is obtained, which happens when one is
    cached (that client, the state unchanged) or building one goes through,
    the connection test returns, whatever it finds, and the main logic ends
    as the campaign read for that client and the selected account ends in
    the state the test left: its outcome, rows included, is that of
    [get_campaign_performance].  A failing connection test alone never ends
    it. *)
Theorem main_logic_outcome (api : Api) (config : Config) (customer_id : string)
    (s : state) :
  (fst (main_logic api config customer_id s) = Stopped
   <-> cache s = None /\ exists e, load_from_dict api (calls s) config = Some e)
  /\ (forall e, fst (main_logic api config customer_id s) = Raised e ->
                exists made,
                  get_service api (calls s ++ made) "GoogleAdsService" = Some e)
  /\ ((cache s <> None \/ load_from_dict api (calls s) config = None) ->
      (forall history, get_service api history "GoogleAdsService" = None) ->
      exists rows, fst (main_logic api config customer_id s) = Ok rows)
  /\ ((cache s <> None \/ load_from_dict api (calls s) config = None) ->
      exists client s1,
        get_google_ads_client api config s = (Ok client, s1)
        /\ (forall cached, cache s = Some cached -> client = cached /\ s1 = s))
  /\ (forall client s1,
        get_google_ads_client api config s = (Ok client, s1) ->
        exists verified s2,
          test_google_ads_connection api client s1 = (Ok verified, s2)
          /\ main_logic api config customer_id s
             = get_campaign_performance api client customer_id s2).
Proof.
  assert (Hafter : forall client s1 made1,
             calls s1 = calls s ++ made1 ->
             let run := (test_google_ads_connection api client ;;;
                         get_campaign_performance api client customer_id) s1 in
             fst run <> Stopped
             /\ (forall e, fst run = Raised e ->
                           exists made,
                             get_service api (calls s ++ made) "GoogleAdsService" = Some e)
             /\ ((forall history, get_service api history "GoogleAdsService" = None) ->
                 exists rows, fst run = Ok rows)).
  { intros client s1 made1 Hcalls run. unfold run, bind.
    destruct (test_returns api client s1) as (verified & made2 & Hfst & Hcalls2).
    destruct (test_google_ads_connection api client s1) as [outcome s2].
    simpl in Hfst, Hcalls2. subst outcome.
    rewrite get_campaign_performance_unfold.
    destruct (get_service api (calls s2) "GoogleAdsService") as [e' |] eqn:Hservice.
    - simpl. split; [discriminate |]. split.
      + intros e [= <-]. exists (made1 ++ made2).
        by rewrite app_assoc, <- Hcalls, <- Hcalls2.
      + intros Hnever. rewrite Hnever in Hservice. discriminate.
    - destruct (read_body_returns api _ campaign_record customer_id campaign_query
                  (with_calls s2 [CallGetService "GoogleAdsService"]))
        as (rows & s3 & ->).
      simpl. split; [discriminate |]. split; [discriminate |].
      intros _. by exists rows. }
  assert (Hlast : forall client s1,
             get_google_ads_client api config s = (Ok client, s1) ->
             exists verified s2,
               test_google_ads_connection api client s1 = (Ok verified, s2)
               /\ main_logic api config customer_id s
                  = get_campaign_performance api client customer_id s2).
  { intros client s1 Hget.
    destruct (test_returns api client s1) as (verified & made & Hfst & _).
    destruct (test_google_ads_connection api client s1) as [outcome s2] eqn:Htest.
    simpl in Hfst. subst outcome. exists verified, s2. split; [done |].
    unfold main_logic, bind. by rewrite Hget, Htest. }
  split; [| split; [| split; [| split; [| exact Hlast]]]].
  - unfold main_logic, bind. destruct (cache s) as [c |] eqn:Hcache.
    + rewrite (get_client_cached api config s c Hcache).
      destruct (Hafter c s [] ltac:(by rewrite app_nil_r)) as (Hstop & _).
      split; [done | by intros [? _]].
    + rewrite (get_client_uncached api config s Hcache).
      destruct (load_from_dict api (calls s) config) as [e |] eqn:Hload.
      * split; [by eauto | done].
      * match goal with
        | |- context [get_campaign_performance api ?c customer_id] =>
            destruct (Hafter c
                        {| ui := ui s; calls := calls s ++ [CallLoadFromDict];
                           cache := Some c; constructed := S (constructed s) |}
                        [CallLoadFromDict] eq_refl) as (Hstop & _)
        end.
        split; [done | by intros [_ [? ?]]].
  - unfold main_logic, bind. destruct (cache s) as [c |] eqn:Hcache.
    + rewrite (get_client_cached api config s c Hcache).
      by destruct (Hafter c s [] ltac:(by rewrite app_nil_r)) as (_ & Hraise & _).
    + rewrite (get_client_uncached api config s Hcache).
      destruct (load_from_dict api (calls s) config) as [e |] eqn:Hload;
        [discriminate |].
      match goal with
      | |- context [get_campaign_performance api ?c customer_id] =>
          destruct (Hafter c
                      {| ui := ui s; calls := calls s ++ [CallLoadFromDict];
                         cache := Some c; constructed := S (constructed s) |}
                      [CallLoadFromDict] eq_refl) as (_ & Hraise & _)
      end.
      exact Hraise.
  - intros Hclient Hnever. unfold main_logic, bind.
    destruct (cache s) as [c |] eqn:Hcache.
    + rewrite (get_client_cached api config s c Hcache).
      destruct (Hafter c s [] ltac:(by rewrite app_nil_r)) as (_ & _ & Hok). by apply Hok.
    + rewrite (get_client_uncached api config s Hcache).
      destruct Hclient as [Hc | Hl]; [done |]. rewrite Hl.
      match goal with
      | |- context [get_campaign_performance api ?c customer_id] =>
          destruct (Hafter c
                      {| ui := ui s; calls := calls s ++ [CallLoadFromDict];
                         cache := Some c; constructed := S (constructed s) |}
                      [CallLoadFromDict] eq_refl) as (_ & _ & Hok)
      end.
      by apply Hok.
  - intros Hclient. destruct (cache s) as [c |] eqn:Hcache.
    + exists c, s. split; [by apply get_client_cached |]. by intros cached [= <-].
    + destruct Hclient as [Hc | Hl]; [done |].
      rewrite (get_client_uncached api config s Hcache), Hl.
      eexists _, _. split; [reflexivity | discriminate].
Qed.

Lemma main_logic_outcome_witness :
  (cache initial_state <> None
   \/ load_from_dict healthy_api (calls initial_state) sample_config = None)
  /\ (forall history, get_service healthy_api history "GoogleAdsService" = None)
  /\ (exists rows, fst (main_logic healthy_api sample_config "5756290882" initial_state)
                   = Ok rows)
  /\ exists client s1,
       get_google_ads_client healthy_api sample_config initial_state = (Ok client, s1)
       /\ exists verified s2,
            test_google_ads_connection healthy_api client s1 = (Ok verified, s2)
            /\ main_logic healthy_api sample_config "5756290882" initial_state
               = get_campaign_performance healthy_api client "5756290882" s2.
Proof.
  assert (H1 : cache initial_state <> None
               \/ load_from_dict healthy_api (calls initial_state) sample_config = None)
    by (right; reflexivity).
  assert (H2 : forall history, get_service healthy_api history "GoogleAdsService" = None)
    by reflexivity.
  destruct (main_logic_outcome healthy_api sample_config "5756290882" initial_state)
    as (_ & _ & Hok & Hclient & Hlast).
  split; [exact H1 |]. split; [exact H2 |]. split; [exact (Hok H1 H2) |].
  destruct (Hclient H1) as (client & s1 & Hget & _).
  exists client, s1. split; [exact Hget |]. exact (Hlast client s1 Hget).
Defined.


(** ** True division: relative error *)

(** [ilog2_quot a b] is not above the logarithm of the quotient. *)
Lemma ilog2_quot_le (a b : Z) :
  0 < a -> 0 < b ->
  b * 2 ^ Z.max 0 (ilog2_quot a b) <= a * 2 ^ Z.max 0 (- ilog2_quot a b).
Proof.
  intros Ha Hb. unfold ilog2_quot.
  pose proof (Z.log2_spec a Ha) as [Hla _].
  pose proof (Z.log2_spec b Hb) as [_ Hlb].
  pose proof (Z.log2_nonneg a) as Hna.
  pose proof (Z.log2_nonneg b) as Hnb.
  set (e0 := Z.log2 a - Z.log2 b) in *.
  destruct (Z.leb_spec (b * 2 ^ Z.max 0 e0) (a * 2 ^ Z.max 0 (- e0))) as [Hle | _];
    [exact Hle |].
  destruct (Z.le_gt_cases 1 e0) as [Hpos | Hneg].
  - rewrite (Z.max_r 0 (e0 - 1)), (Z.max_l 0 (- (e0 - 1))) by lia.
    rewrite Z.pow_0_r, Z.mul_1_r.
    assert (Hsplit : 2 ^ Z.log2 a = 2 ^ (e0 - 1) * 2 ^ (Z.log2 b + 1))
      by (rewrite <- Z.pow_add_r by lia; f_equal; lia).
    assert (0 < 2 ^ (e0 - 1)) by (apply Z.pow_pos_nonneg; lia).
    nia.
  - rewrite (Z.max_l 0 (e0 - 1)), (Z.max_r 0 (- (e0 - 1))) by lia.
    rewrite Z.pow_0_r, Z.mul_1_r.
    assert (Hsplit : 2 ^ (Z.log2 b + 1) = 2 ^ Z.log2 a * 2 ^ (- (e0 - 1)))
      by (rewrite <- Z.pow_add_r by lia; f_equal; lia).
    assert (0 < 2 ^ (- (e0 - 1))) by (apply Z.pow_pos_nonneg; lia).
    nia.
Qed.

Lemma ilog2_quot_ge (a b k : Z) :
  0 < a -> 0 < b -> 0 <= k -> b <= a * 2 ^ k -> - k <= ilog2_quot a b.
Proof.
  intros Ha Hb Hk Hab. unfold ilog2_quot.
  pose proof (Z.log2_spec a Ha) as [_ Hla].
  pose proof (Z.log2_spec b Hb) as [Hlb _].
  pose proof (Z.log2_nonneg a) as Hna.
  pose proof (Z.log2_nonneg b) as Hnb.
  set (e0 := Z.log2 a - Z.log2 b) in *.
  destruct (Z.leb_spec (b * 2 ^ Z.max 0 e0) (a * 2 ^ Z.max 0 (- e0))) as [_ | Hgt].
  - destruct (Z.le_gt_cases (- k) e0) as [Hle | Hlt]; [exact Hle | exfalso].
    assert (Hp : 2 ^ (Z.log2 a + 1 + k) <= 2 ^ Z.log2 b)
      by (apply Z.pow_le_mono_r; lia).
    rewrite Z.pow_add_r in Hp by lia.
    assert (0 < 2 ^ k) by (apply Z.pow_pos_nonneg; lia).
    nia.
  - destruct (Z.le_gt_cases e0 (- k)) as [Hle | Hlt]; [exfalso | lia].
    rewrite (Z.max_l 0 e0), (Z.max_r 0 (- e0)) in Hgt by lia.
    rewrite Z.pow_0_r, Z.mul_1_r in Hgt.
    assert (2 ^ k <= 2 ^ (- e0)) by (apply Z.pow_le_mono_r; lia).
    nia.
Qed.

(** Above the subnormal range, a quotient that fits a float is within 2^-53
    of the exact one, relatively. *)
Lemma truediv_result_error (a : Z) (b : positive) (f : spec_float) :
  a <> 0 -> Zpos b <= Z.abs a * 2 ^ 1022 ->
  py_truediv a (Zpos b) = inr f ->
  (Qabs (F2Q f - (a # b)) * inject_Z (2 ^ 53) <= Qabs (a # b))%Q.
Proof.
  intros Ha Hlow.
  assert (Hpa : 0 < Z.abs a) by lia.
  assert (Hb : 0 < Zpos b) by lia.
  pose proof (ilog2_quot_le (Z.abs a) (Zpos b) Hpa Hb) as Hfloor.
  pose proof (ilog2_quot_ge (Z.abs a) (Zpos b) 1022 Hpa Hb ltac:(lia) Hlow) as Hdown.
  unfold py_truediv, round_binary64.
  destruct (Z.eqb_spec (Zpos b) 0) as [| _]; [lia |].
  destruct (Z.eqb_spec a 0) as [| _]; [lia |].
  change (Z.abs (Zpos b)) with (Zpos b).
  change (Zpos b <? 0) with false. rewrite xorb_false_r.
  assert (Hshdef : frac_bits (Z.abs a) (Zpos b) = 52 - ilog2_quot (Z.abs a) (Zpos b))
    by (unfold frac_bits; lia).
  set (e := ilog2_quot (Z.abs a) (Zpos b)) in *.
  set (sh := frac_bits (Z.abs a) (Zpos b)) in *.
  set (N := Z.abs a * 2 ^ Z.max 0 sh).
  set (D := Zpos b * 2 ^ Z.max 0 (- sh)).
  assert (HD : 0 < D) by (apply Z.mul_pos_pos; [lia | apply Z.pow_pos_nonneg; lia]).
  assert (HN : 0 <= N) by (apply Z.mul_nonneg_nonneg; [lia | apply Z.pow_nonneg; lia]).
  pose proof (round_half_even_error N D HD) as Herr.
  pose proof (round_half_even_nonneg N D HN HD) as Hq.
  unfold round_quot. fold sh N D.
  set (q := round_half_even N D) in *.
  (* the value of the result, as a fraction over 2 ^ max 0 sh *)
  assert (Hvalue :
             (let '(m, ex) := if q =? 2 ^ 53 then (2 ^ 52, 1 - sh) else (q, - sh) in
              match m with
              | Z.pos p =>
                  if 971 <? ex
                  then inl (mkExn OverflowError
                              "integer division result too large for a float")
                  else inr (S754_finite (a <? 0) p ex)
              | _ => inr (S754_zero (a <? 0))
              end) = inr f ->
             (F2Q f == (Z.sgn a * q * 2 ^ Z.max 0 (- sh))
                       # Z.to_pos (2 ^ Z.max 0 sh))%Q).
  { assert (Hsgn : (if a <? 0 then -1 else 1) = Z.sgn a)
      by (destruct (Z.ltb_spec a 0); [rewrite Z.sgn_neg | rewrite Z.sgn_pos]; lia).
    destruct (Z.eqb_spec q (2 ^ 53)) as [Hcarry | _].
    - change (2 ^ 52) with (Zpos 4503599627370496).
      destruct (Z.ltb_spec 971 (1 - sh)); [discriminate |].
      intros [= <-].
      rewrite F2Q_finite. unfold Qeq. simpl Qnum. simpl Qden.
      rewrite !Z2Pos.id by (apply Z.pow_pos_nonneg; lia).
      rewrite Hcarry, <- Hsgn.
      destruct (Z.le_gt_cases 1 sh) as [Hp | Hn].
      + rewrite (Z.max_l 0 (1 - sh)), (Z.max_r 0 (- (1 - sh))) by lia.
        rewrite (Z.max_l 0 (- sh)), (Z.max_r 0 sh) by lia.
        replace (- (1 - sh)) with (sh - 1) by lia.
        assert (Hsplit : 2 ^ sh = 2 * 2 ^ (sh - 1))
          by (rewrite <- Z.pow_succ_r by lia; f_equal; lia).
        rewrite Hsplit. destruct (a <? 0); simpl; lia.
      + rewrite (Z.max_r 0 (1 - sh)), (Z.max_l 0 (- (1 - sh))) by lia.
        rewrite (Z.max_r 0 (- sh)), (Z.max_l 0 sh) by lia.
        assert (Hsplit : 2 ^ (1 - sh) = 2 * 2 ^ (- sh))
          by (rewrite <- Z.pow_succ_r by lia; f_equal; lia).
        rewrite Hsplit. destruct (a <? 0); simpl; lia.
    - destruct q as [| p | p] eqn:Hqp; [| | lia].
      + intros [= <-]. simpl. unfold Qeq. simpl. lia.
      + destruct (Z.ltb_spec 971 (- sh)); [discriminate |].
        intros [= <-].
        rewrite F2Q_finite. unfold Qeq. simpl Qnum. simpl Qden.
        rewrite !Z2Pos.id by (apply Z.pow_pos_nonneg; lia).
        rewrite Z.opp_involutive, <- Hsgn.
        destruct (a <? 0); simpl; lia. }
  intros Hrun. rewrite (Hvalue Hrun). clear Hvalue Hrun.
  (* the bound, in integers *)
  assert (Hp1 : 0 < 2 ^ Z.max 0 sh) by (apply Z.pow_pos_nonneg; lia).
  assert (Hp2 : 0 < 2 ^ Z.max 0 (- sh)) by (apply Z.pow_pos_nonneg; lia).
  assert (H53 : 2 ^ 53 * 2 ^ Z.max 0 (- sh) * 2 ^ Z.max 0 (- e)
                = 2 * 2 ^ Z.max 0 sh * 2 ^ Z.max 0 e).
  { transitivity (2 ^ (53 + Z.max 0 (- sh) + Z.max 0 (- e)));
      [rewrite !Z.pow_add_r by lia; ring |].
    transitivity (2 ^ (1 + Z.max 0 sh + Z.max 0 e)); [f_equal; lia |].
    rewrite !Z.pow_add_r by lia. rewrite Z.pow_1_r. ring. }
  assert (Hkey : D * 2 ^ 53 <= 2 * N).
  { unfold D, N.
    assert (H0 : 0 < 2 ^ Z.max 0 e) by (apply Z.pow_pos_nonneg; lia).
    assert (H1 : 0 < 2 ^ Z.max 0 (- e)) by (apply Z.pow_pos_nonneg; lia).
    apply (Z.mul_le_mono_pos_r _ _ (2 ^ Z.max 0 (- e))); [lia |].
    replace (Zpos b * 2 ^ Z.max 0 (- sh) * 2 ^ 53 * 2 ^ Z.max 0 (- e))
      with (Zpos b * (2 ^ 53 * 2 ^ Z.max 0 (- sh) * 2 ^ Z.max 0 (- e))) by lia.
    rewrite H53.
    replace (2 * (Z.abs a * 2 ^ Z.max 0 sh) * 2 ^ Z.max 0 (- e))
      with (2 * 2 ^ Z.max 0 sh * (Z.abs a * 2 ^ Z.max 0 (- e))) by lia.
    replace (Zpos b * (2 * 2 ^ Z.max 0 sh * 2 ^ Z.max 0 e))
      with (2 * 2 ^ Z.max 0 sh * (Zpos b * 2 ^ Z.max 0 e)) by lia.
    apply Z.mul_le_mono_nonneg_l; [lia | exact Hfloor]. }
  assert (Hdiff : (Qmake (Z.sgn a * q * 2 ^ Z.max 0 (- sh)) (Z.to_pos (2 ^ Z.max 0 sh))
                   - Qmake a b
                   == Qmake (Z.sgn a * (q * D - N))
                            (Pos.mul (Z.to_pos (2 ^ Z.max 0 sh)) b))%Q).
  { unfold Qeq, Qminus, Qplus, Qopp. simpl Qnum. simpl Qden.
    rewrite !Pos2Z.inj_mul, !Z2Pos.id by lia. unfold D, N.
    destruct (Z.lt_total a 0) as [Hneg | [Hz | Hpos]]; [| lia |].
    - rewrite Z.sgn_neg, (Z.abs_neq a) by lia. ring.
    - rewrite Z.sgn_pos, (Z.abs_eq a) by lia. ring. }
  rewrite Hdiff.
  unfold Qabs, Qle, Qmult, inject_Z. simpl Qnum. simpl Qden.
  rewrite Pos.mul_1_r, !Pos2Z.inj_mul, !Z2Pos.id by lia.
  rewrite Z.abs_mul.
  assert (Habs_sgn : Z.abs (Z.sgn a) = 1) by lia.
  rewrite Habs_sgn, Z.mul_1_l.
  assert (Hhalf : Z.abs (q * D - N) * 2 ^ 53 <= N) by lia.
  unfold N in Hhalf.
  apply (Z.mul_le_mono_nonneg_r _ _ (Zpos b)) in Hhalf; [| lia].
  lia.
Qed.

(** In the normal range the rounded quotient is within 2^-53 of the exact
    one, relatively. *)
Lemma truediv_relative_error (a : Z) (b : positive) :
  a <> 0 -> Zpos b <= Z.abs a * 2 ^ 1022 -> Z.abs a < FLOAT_RANGE * Zpos b ->
  exists f : spec_float,
    py_truediv a (Zpos b) = inr f
    /\ (Qabs (F2Q f - (a # b)) * inject_Z (2 ^ 53) <= Qabs (a # b))%Q.
Proof.
  intros Ha Hlow Hhigh.
  destruct (truediv_defined a (Zpos b) ltac:(lia) Hhigh) as [f Hrun].
  exists f. split; [exact Hrun |]. by apply truediv_result_error.
Qed.

(** X16: whenever the cost fields are integers, null or absent and the
    summed cost micros are not zero and below 2^1023 currency units in
    absolute value, the total cost is a float whose distance from the exact
    quotient by 1,000,000 is at most 2^-53 times that quotient. *)
Theorem total_cost_relative_error (rows : list (gmap string pyval)) :
  Forall (fun row => metric_typed "metrics.cost_micros" row = true) rows ->
  sum_micros rows <> 0 ->
  Z.abs (sum_micros rows) < FLOAT_RANGE * 1000000 ->
  exists total : spec_float,
    total_cost rows = inr total
    /\ (Qabs (F2Q total - (sum_micros rows # 1000000)) * inject_Z (2 ^ 53)
        <= Qabs (sum_micros rows # 1000000))%Q.
Proof.
  intros Htyped Hnz Hrange. rewrite (total_cost_typed rows Htyped).
  apply truediv_relative_error; [exact Hnz | | exact Hrange].
  assert (Hbig : 1000000 <= 2 ^ 1022) by (vm_compute; discriminate).
  assert (1 <= Z.abs (sum_micros rows)) by lia.
  nia.
Qed.

Lemma total_cost_relative_error_witness :
  Forall (fun row => metric_typed "metrics.cost_micros" row = true) [huge_cost_row]
  /\ sum_micros [huge_cost_row] <> 0
  /\ Z.abs (sum_micros [huge_cost_row]) < FLOAT_RANGE * 1000000
  /\ exists total : spec_float,
       total_cost [huge_cost_row] = inr total
       /\ (Qabs (F2Q total - (sum_micros [huge_cost_row] # 1000000)) * inject_Z (2 ^ 53)
           <= Qabs (sum_micros [huge_cost_row] # 1000000))%Q.
Proof.
  assert (Ht : Forall (fun row => metric_typed "metrics.cost_micros" row = true)
                      [huge_cost_row]) by (repeat constructor).
  assert (Hn : sum_micros [huge_cost_row] <> 0) by (vm_compute; discriminate).
  assert (Hr : Z.abs (sum_micros [huge_cost_row]) < FLOAT_RANGE * 1000000)
    by (vm_compute; reflexivity).
  split; [exact Ht |]. split; [exact Hn |]. split; [exact Hr |].
  exact (total_cost_relative_error [huge_cost_row] Ht Hn Hr).
Defined.

(** ** The total cost and the cost column *)

(** C5: for every row set whose cost fields are integers, null or absent,
    the aggregator's total cost is what [sum(cost_micros) / 1_000_000]
    evaluates to: the two computations give the same float, or raise alike,
    so two results differ by zero, which is within 1e-6; and for a sum below
    2^1023 currency units in absolute value both give a float. *)
Theorem total_cost_is_quotient (rows : list (gmap string pyval)) :
  Forall (fun row => metric_typed "metrics.cost_micros" row = true) rows ->
  total_cost rows = reference_total_cost rows
  /\ (forall total reference : spec_float,
        total_cost rows = inr total -> reference_total_cost rows = inr reference ->
        (Qabs (F2Q total - F2Q reference) <= 1 # 1000000)%Q)
  /\ (Z.abs (foldr Z.add 0 (map micros_of rows)) < FLOAT_RANGE * 1000000 ->
      exists total : spec_float,
        total_cost rows = inr total /\ reference_total_cost rows = inr total).
Proof.
  intros Htyped.
  assert (Heq : total_cost rows = reference_total_cost rows)
    by (rewrite (total_cost_typed rows Htyped); reflexivity).
  split; [exact Heq |]. split.
  - intros total reference Htotal Href.
    rewrite Heq in Htotal. rewrite Htotal in Href. injection Href as <-.
    assert (Hzero : (F2Q total - F2Q total == 0)%Q) by ring.
    rewrite Hzero. discriminate.
  - intros Hrange. rewrite Heq.
    destruct (truediv_defined _ 1000000 ltac:(lia) Hrange) as [total Htotal].
    exists total. by split.
Qed.

Lemma total_cost_is_quotient_witness :
  Forall (fun row => metric_typed "metrics.cost_micros" row = true) scenario_rows
  /\ total_cost scenario_rows = reference_total_cost scenario_rows.
Proof.
  assert (Ht : Forall (fun row => metric_typed "metrics.cost_micros" row = true)
                      scenario_rows) by (repeat constructor).
  split; [exact Ht |]. exact (proj1 (total_cost_is_quotient scenario_rows Ht)).
Defined.

Lemma metric_or_zero_int (key : string) (row : gmap string pyval) (z : Z) :
  metric_or_zero key row = VInt z -> z = metric_int key row.
Proof.
  unfold metric_or_zero, metric_int, row_get, py_or.
  destruct (row !! key) as [[| n | text] |]; simpl.
  - by intros [= <-].
  - destruct (Z.eqb_spec n 0) as [-> | _]; simpl; by intros [= <-].
  - destruct (String.eqb text ""); simpl; [by intros [= <-] | discriminate].
  - by intros [= <-].
Qed.

Lemma cost_cell_result (row : gmap string pyval) (k : spec_float) :
  cost_cell row = inr k -> py_truediv (micros_of row) 1000000 = inr k.
Proof.
  unfold cost_cell, micros_of. intros Hk.
  destruct (metric_or_zero "metrics.cost_micros" row) as [| z | text] eqn:Hv;
    [discriminate | | discriminate].
  by rewrite <- (metric_or_zero_int _ _ _ Hv).
Qed.

Lemma total_cost_result (rows : list (gmap string pyval)) (total : spec_float) :
  total_cost rows = inr total -> py_truediv (sum_micros rows) 1000000 = inr total.
Proof.
  unfold total_cost, py_sum. rewrite py_sum_from_cases.
  destruct (existsb _ rows); [discriminate | done].
Qed.

Lemma summarize_result (rows : list (gmap string pyval)) (totals : Totals) :
  summarize rows = inr totals ->
  total_impressions rows = inr (impressions totals)
  /\ total_clicks rows = inr (clicks totals)
  /\ total_cost rows = inr (cost totals).
Proof.
  unfold summarize.
  destruct (total_impressions rows) as [| i]; [discriminate |].
  destruct (total_clicks rows) as [| c]; [discriminate |].
  destruct (total_cost rows) as [| k]; [discriminate |].
  by intros [= <-].
Qed.

Lemma cost_column_cells (rows : list (gmap string pyval))
    (table : list (gmap string cell)) :
  Forall2 table_entry rows table ->
  Forall2 (fun row k => py_truediv (micros_of row) 1000000 = inr k)
          rows (cost_column table).
Proof.
  induction 1 as [| row entry rows table Hentry _ IH]; [constructor |].
  destruct Hentry as (_ & _ & _ & _ & _ & k & Hk & Hcost).
  rewrite (cost_column_cons entry table k Hcost).
  constructor; [by apply cost_cell_result | exact IH].
Qed.

(** A quotient by 1,000,000 that fits a float is within 2^-53 of the exact
    one, relatively. *)
Lemma truediv_million_error (a : Z) (f : spec_float) :
  py_truediv a 1000000 = inr f ->
  (Qabs (F2Q f - (a # 1000000)) * inject_Z (2 ^ 53) <= Qabs (a # 1000000))%Q.
Proof.
  intros Hrun. destruct (Z.eq_dec a 0) as [-> | Hnz].
  - injection Hrun as <-. vm_compute. discriminate.
  - apply truediv_result_error; [exact Hnz | | exact Hrun].
    assert (Hbig : 1000000 <= 2 ^ 1022) by (vm_compute; discriminate).
    assert (1 <= Z.abs a) by lia. nia.
Qed.

Lemma Qabs_add_scaled (x y bx by' c : Q) :
  (0 <= c)%Q -> (Qabs x * c <= bx)%Q -> (Qabs y * c <= by')%Q ->
  (Qabs (x + y) * c <= bx + by')%Q.
Proof.
  intros Hc Hx Hy.
  apply Qle_trans with ((Qabs x + Qabs y) * c)%Q.
  - apply Qmult_le_compat_r; [apply Qabs_triangle | exact Hc].
  - rewrite Qmult_plus_distr_l. by apply Qplus_le_compat.
Qed.

(** The floats of the cost column add up to the exact total up to one
    rounding per row. *)
Lemma cost_cells_error (rows : list (gmap string pyval)) (cells : list spec_float) :
  Forall2 (fun row k => py_truediv (micros_of row) 1000000 = inr k) rows cells ->
  (Qabs (Qsum (map F2Q cells) - (sum_micros rows # 1000000)) * inject_Z (2 ^ 53)
   <= Qsum (map (fun row => Qabs (micros_of row # 1000000)) rows))%Q.
Proof.
  induction 1 as [| row k rows cells Hk _ IH].
  - vm_compute. discriminate.
  - change (sum_micros (row :: rows)) with (micros_of row + sum_micros rows).
    simpl map. simpl Qsum.
    assert (Hsplit : (F2Q k + Qsum (map F2Q cells)
                      - (micros_of row + sum_micros rows # 1000000)
                      == (F2Q k - (micros_of row # 1000000))
                         + (Qsum (map F2Q cells) - (sum_micros rows # 1000000)))%Q).
    { rewrite <- (Qinv_plus_distr (micros_of row) (sum_micros rows) 1000000). ring. }
    rewrite Hsplit.
    apply Qabs_add_scaled; [discriminate | by apply truediv_million_error | exact IH].
Qed.

(** C10 (amended): for a non-empty row list for which the totals and the
    table are computed, the card shows the total cost formatted to two
    decimals and the table, unless [st.dataframe] refuses it, is shown after
    the cards; the total is the float of the summed coerced cost micros
    divided by 1,000,000 and each "Cost (€)" value is the float of the row's
    coerced cost micros divided by 1,000,000, the same coercion and the same
    division.  The total equals the sum of the per-row values up to
    rounding: they differ by at most 2^-53 times the sum of the absolute
    exact total and the absolute exact per-row costs. *)
Theorem total_cost_matches_table (api : Api) (rows : list (gmap string pyval))
    (totals : Totals) (table : list (gmap string cell)) (s : state) :
  rows <> [] ->
  summarize rows = inr totals ->
  table_data rows = inr table ->
  render api rows s =
    match dataframe_error api table with
    | None =>
        (Ok tt, with_ui s [Metric "Impressions" (format_int (impressions totals));
                           Metric "Clicks" (format_int (clicks totals));
                           Metric "Cost" ("€" +:+ format_2f (cost totals));
                           Dataframe table])
    | Some e =>
        (Raised e, with_ui s [Metric "Impressions" (format_int (impressions totals));
                              Metric "Clicks" (format_int (clicks totals));
                              Metric "Cost" ("€" +:+ format_2f (cost totals))])
    end
  /\ py_truediv (sum_micros rows) 1000000 = inr (cost totals)
  /\ Forall2 (fun row k => py_truediv (micros_of row) 1000000 = inr k)
             rows (cost_column table)
  /\ (Qabs (F2Q (cost totals) - Qsum (map F2Q (cost_column table)))
      * inject_Z (2 ^ 53)
      <= Qabs (sum_micros rows # 1000000)
         + Qsum (map (fun row => Qabs (micros_of row # 1000000)) rows))%Q.
Proof.
  intros Hne Htotals Htable.
  destruct (summarize_result rows totals Htotals) as (_ & _ & Hcost).
  apply total_cost_result in Hcost.
  pose proof (table_data_from_shape rows []) as Hshape.
  fold (table_data rows) in Hshape. rewrite Htable in Hshape.
  destruct Hshape as (entries & Heq & Hall). simpl in Heq. subst entries.
  pose proof (cost_column_cells rows table Hall) as Hcells.
  split; [by apply render_unfold |]. split; [exact Hcost |]. split; [exact Hcells |].
  assert (Hsplit : (F2Q (cost totals) - Qsum (map F2Q (cost_column table))
                    == (F2Q (cost totals) - (sum_micros rows # 1000000))
                       + - (Qsum (map F2Q (cost_column table))
                            - (sum_micros rows # 1000000)))%Q) by ring.
  rewrite Hsplit.
  apply Qabs_add_scaled; [discriminate | by apply truediv_million_error |].
  rewrite Qabs_opp. by apply cost_cells_error.
Qed.

Lemma total_cost_matches_table_witness :
  exists (totals : Totals) (table : list (gmap string cell)),
    dime_rows <> []
    /\ summarize dime_rows = inr totals
    /\ table_data dime_rows = inr table
    /\ py_truediv (sum_micros dime_rows) 1000000 = inr (cost totals)
    /\ Forall2 (fun row k => py_truediv (micros_of row) 1000000 = inr k)
               dime_rows (cost_column table).
Proof.
  assert (Hne : dime_rows <> []) by discriminate.
  assert (Htotals : summarize dime_rows
                    = inr {| impressions := 0; clicks := 0;
                             cost := float_three_tenths |})
    by (vm_compute; reflexivity).
  pose proof (table_data_from_shape dime_rows []) as Hshape.
  fold (table_data dime_rows) in Hshape.
  destruct (table_data dime_rows) as [e | table] eqn:Htable.
  { exfalso. destruct Hshape as (before & row & after & Hrows & Hbad & _).
    assert (Hall : Forall (fun r => exists k, cost_cell r = inr k) dime_rows)
      by (repeat constructor; eexists; vm_compute; reflexivity).
    rewrite Hrows in Hall. apply Forall_app in Hall as [_ Hall].
    apply Forall_cons in Hall as [[k Hk] _]. congruence. }
  eexists _, table. split; [exact Hne |]. split; [exact Htotals |].
  split; [reflexivity |].
  pose proof (total_cost_matches_table healthy_api dime_rows _ table initial_state
                Hne Htotals Htable) as (_ & Hcost & Hcells & _).
  by split.
Defined.
